(** * testutil: fixture generation, list iterator and ingestion helpers

    A shallow embedding of [testutil/db.go] and the properties of its
    sample iterator, its series generator and its head/block helpers.

    Conventions.
    - Go's [int] and [int64] are 64-bit two's complement integers: they are
      modelled as [Z] and every arithmetic result goes through [wrap64].
    - [uint64] series references are [Z] as well; the code only compares them
      with [0].
    - [float64] sample values are Rocq's binary64 floats; the code never
      computes with them.
    - A run-time panic and the exhaustion of the fuel that bounds a loop are
      two distinct outcomes of [Result]. *)

From Stdlib Require Import ZArith Floats.
From stdpp Require Import base numbers list strings pretty gmap fin_maps sorting.

Open Scope Z_scope.

(** ** Outcomes *)

Definition error : Type := string.

(** [Done]: normal completion. [Panic]: a run-time panic. [Fatal]: the test
    was stopped by [Ok(tb, err)] on a non-nil error. [OutOfFuel]: a loop of
    the model ran out of fuel. *)
Inductive Result (A : Type) : Type :=
| Done (a : A)
| Panic (msg : string)
| Fatal (err : error)
| OutOfFuel.
Arguments Done {A} a.
Arguments Panic {A} msg.
Arguments Fatal {A} err.
Arguments OutOfFuel {A}.

Global Instance Result_ret : MRet Result := λ A a, Done a.
Global Instance Result_bind : MBind Result := λ A B f m,
  match m with
  | Done a => f a
  | Panic msg => Panic msg
  | Fatal err => Fatal err
  | OutOfFuel => OutOfFuel
  end.
Global Instance Result_fmap : FMap Result := λ A B f m,
  match m with
  | Done a => Done (f a)
  | Panic msg => Panic msg
  | Fatal err => Fatal err
  | OutOfFuel => OutOfFuel
  end.

(** ** Machine integers *)

Definition int_min : Z := - 2 ^ 63.
Definition int_max : Z := 2 ^ 63 - 1.

(** The value of a 64-bit signed result: reduction modulo [2^64] into
    [[int_min, int_max]]. *)
Definition wrap64 (z : Z) : Z := (z + 2 ^ 63) `mod` 2 ^ 64 - 2 ^ 63.

Definition in_int (z : Z) : Prop := int_min ≤ z ≤ int_max.

(** [len(l)] *)
Definition len {A} (l : list A) : Z := Z.of_nat (length l).

(** [l[i]], which panics outside of [[0, len(l))]. *)
Definition index {A} (l : list A) (i : Z) : Result A :=
  if bool_decide (0 ≤ i < len l) then
    match l !! Z.to_nat i with
    | Some x => Done x
    | None => Panic "index out of range"
    end
  else Panic "index out of range".

(** ** Samples *)

Record sample : Type := mk_sample { t : Z; v : float }.

Definition T (s : sample) : Z := s.(t).
Definition V (s : sample) : float := s.(v).

(** ** sort.Search (Go standard library)

    [Search(n, f)] is the loop
    [i, j := 0, n; for i < j { h := int(uint(i+j) >> 1); if !f(h) { i = h + 1 } else { j = h } }; return i].
    The predicate may panic, which ends the search. *)

Fixpoint Search_loop (fuel : nat) (i j : Z) (f : Z → Result bool) : Result Z :=
  if i <? j then
    match fuel with
    | O => OutOfFuel
    | S fuel' =>
        let h := Z.shiftr ((i + j) `mod` 2 ^ 64) 1 in
        b ← f h;
        if negb b then Search_loop fuel' (wrap64 (h + 1)) j f
        else Search_loop fuel' i h f
    end
  else Done i.

Definition Search (fuel : nat) (n : Z) (f : Z → Result bool) : Result Z :=
  Search_loop fuel 0 n f.

(** ** listSeriesIterator *)

(** The field [list] of the source is [lst] here, as [list] is the type of
    lists. *)
Record listSeriesIterator : Type := mk_iter { lst : list sample; idx : Z }.

Definition newListSeriesIterator (l : list sample) : listSeriesIterator :=
  {| lst := l; idx := -1 |}.

Definition At (it : listSeriesIterator) : Result (Z * float) :=
  s ← index it.(lst) it.(idx);
  Done (T s, V s).

Definition Next (it : listSeriesIterator) : listSeriesIterator * bool :=
  let it := {| lst := it.(lst); idx := wrap64 (it.(idx) + 1) |} in
  (it, it.(idx) <? len it.(lst)).

(** The closure given to [sort.Search] reads [it.idx] while the search runs,
    that is before the assignment of the result to [it.idx]. *)
Definition Seek (fuel : nat) (t : Z) (it : listSeriesIterator)
  : Result (listSeriesIterator * bool) :=
  let it := if it.(idx) =? -1 then {| lst := it.(lst); idx := 0 |} else it in
  r ← Search fuel (wrap64 (len it.(lst) - it.(idx)))
        (λ i, s ← index it.(lst) (wrap64 (i + it.(idx)));
              Done (T s >=? t));
  let it := {| lst := it.(lst); idx := r |} in
  Done (it, it.(idx) <? len it.(lst)).

Definition Err (it : listSeriesIterator) : option error := None.

(** The iterator after [n] calls of [Next]. *)
Definition after_nexts (n : nat) (it : listSeriesIterator) : listSeriesIterator :=
  Nat.iter n (λ it, (Next it).1) it.

(** ** Label sets and series *)

Record Label : Type := mk_label { Name : string; Value : string }.

(** Modelled from the spec: [labels.FromMap] of the labels package, which is
    outside of [testutil/db.go]. A label set is a mapping from names to
    values and is put in the canonical order, lexicographic by name, when
    turned into a sequence. *)
Definition FromMap (m : gmap string string) : list Label :=
  merge_sort (λ a b, String.leb (Name a) (Name b))
             ((λ kv, mk_label kv.1 kv.2) <$> map_to_list m).

(** A [mockSeries] holds two closures; it is represented by what they
    capture, the map and the samples given to [newSeries]. *)
Record mockSeries : Type := newSeries
  { series_labels : gmap string string; series_samples : list sample }.

Definition Labels (m : mockSeries) : list Label := FromMap m.(series_labels).
Definition Iterator (m : mockSeries) : listSeriesIterator :=
  newListSeriesIterator m.(series_samples).

(** ** GenSeries *)

Definition defaultLabelName : string := "labelName".
Definition defaultLabelValue : string := "labelValue".

(** [strconv.Itoa]: the decimal representation, with a leading [-] for a
    negative number. *)
Definition Itoa (i : Z) : string := pretty i.

(** [make([]T, n)]: [n] zero values; a negative length panics. A slice of
    interface values starts with [nil] entries, [None] here. *)
Definition make_slice {A} (n : Z) : Result (list (option A)) :=
  if n <? 0 then Panic "makeslice: len out of range"
  else Done (replicate (Z.to_nat n) None).

(** [make([]T, 0, c)]: the empty slice; a negative capacity panics. The
    limits of the memory are left out: a capacity that is not negative is
    granted. *)
Definition make_empty {A} (c : Z) : Result (list A) :=
  if c <? 0 then Panic "makeslice: cap out of range" else Done [].

(** [s[i] = x] *)
Definition store {A} (s : list (option A)) (i : Z) (x : A) : Result (list (option A)) :=
  if bool_decide (0 ≤ i < len s) then Done (<[Z.to_nat i := Some x]> s)
  else Panic "index out of range".

Section GenSeries.
(** The shared random source behind [rand.Float64]: a state and the
    function that draws the next value from it. *)
Context {Rand : Type} (Float64 : Rand → float * Rand).

(** [for j := 1; len(lbls) < labelCount; j++ { lbls[name+j] = value+j }] *)
Fixpoint label_loop (fuel : nat) (labelCount j : Z) (lbls : gmap string string)
  : Result (gmap string string) :=
  if Z.of_nat (size lbls) <? labelCount then
    match fuel with
    | O => OutOfFuel
    | S fuel' =>
        label_loop fuel' labelCount (wrap64 (j + 1))
          (<[defaultLabelName +:+ Itoa j := defaultLabelValue +:+ Itoa j]> lbls)
    end
  else Done lbls.

(** [for t := mint; t < maxt; t++ { samples = append(samples, sample{t, rand.Float64()}) }] *)
Fixpoint sample_loop (fuel : nat) (t maxt : Z) (samples : list sample) (r : Rand)
  : Result (list sample * Rand) :=
  if t <? maxt then
    match fuel with
    | O => OutOfFuel
    | S fuel' =>
        let '(x, r) := Float64 r in
        sample_loop fuel' (wrap64 (t + 1)) maxt (samples ++ [mk_sample t x]) r
    end
  else Done (samples, r).

(** The capacity asked for the samples: [maxt-mint+1], in [int64]. *)
Definition sample_cap (mint maxt : Z) : Z := wrap64 (wrap64 (maxt - mint) + 1).

(** The body of the loop over [i]. *)
Definition gen_one (fuel : nat) (i labelCount mint maxt : Z) (r : Rand)
  : Result (mockSeries * Rand) :=
  lbls ← label_loop fuel labelCount 1 (<[defaultLabelName := Itoa i]> ∅);
  samples ← make_empty (sample_cap mint maxt);
  '(samples, r) ← sample_loop fuel mint maxt samples r;
  Done (newSeries lbls samples, r).

(** [for i := 0; i < totalSeries; i++ { ...; series[i] = newSeries(lbls, samples) }] *)
Fixpoint series_loop (fuel : nat) (i totalSeries labelCount mint maxt : Z)
    (series : list (option mockSeries)) (r : Rand)
  : Result (list (option mockSeries) * Rand) :=
  if i <? totalSeries then
    match fuel with
    | O => OutOfFuel
    | S fuel' =>
        '(m, r) ← gen_one fuel i labelCount mint maxt r;
        series ← store series i m;
        series_loop fuel' (wrap64 (i + 1)) totalSeries labelCount mint maxt series r
    end
  else Done (series, r).

Definition GenSeries (fuel : nat) (totalSeries labelCount mint maxt : Z) (r : Rand)
  : Result (list (option mockSeries) * Rand) :=
  if (totalSeries =? 0) || (labelCount =? 0) then Done ([], r)
  else
    series ← make_slice totalSeries;
    series_loop fuel 0 totalSeries labelCount mint maxt series r.
End GenSeries.

(** ** The collaborators: head, appender, compactor, file system *)

(** What the code asks of its collaborators, with their answers. *)
Inductive event : Type :=
| EvNewHead (err : option error)
| EvClose
| EvAppender
| EvAddFast (ref ts : Z) (x : float) (err : option error)
| EvAdd (l : list Label) (ts : Z) (x : float) (ref : Z) (err : option error)
| EvCommit (err : option error)
| EvNewLeveledCompactor (err : option error)
| EvMkdirAll (dir : string) (err : option error)
| EvMinTime (ts : Z)
| EvMaxTime (ts : Z)
| EvWrite (dir : string) (mint maxt : Z) (ulid : string) (err : option error).

(** The storage engine and the file system are outside of [testutil/db.go].
    They are a state [W] with one transition per call: [tsdb.NewHead], [head.Close],
    [head.Appender], the [tsdb.Appender] interface ([AddFast], [Add],
    [Commit]), [head.MinTime], [head.MaxTime], [tsdb.NewLeveledCompactor],
    [os.MkdirAll], [compactor.Write] (which answers with the printed ULID) and
    [filepath.Join]. *)
Class Collaborators (W : Type) : Type := {
  tsdb_NewHead : W → W * option error;
  head_Close : W → W;
  head_Appender : W → W;
  app_AddFast : Z → Z → float → W → W * option error;
  app_Add : list Label → Z → float → W → W * (Z * option error);
  app_Commit : W → W * option error;
  head_MinTime : W → Z;
  head_MaxTime : W → Z;
  tsdb_NewLeveledCompactor : W → W * option error;
  os_MkdirAll : string → W → W * option error;
  compactor_Write : string → Z → Z → W → W * (string * option error);
  filepath_Join : string → string → string;
}.

(** Computations over the collaborators: the state, the events so far, and
    an outcome. *)
Definition M (W A : Type) : Type := W → list event → W * list event * Result A.

Global Instance M_ret {W} : MRet (M W) := λ A a w tr, (w, tr, Done a).
Global Instance M_bind {W} : MBind (M W) := λ A B f m w tr,
  match m w tr with
  | (w, tr, Done a) => f a w tr
  | (w, tr, Panic msg) => (w, tr, Panic msg)
  | (w, tr, Fatal err) => (w, tr, Fatal err)
  | (w, tr, OutOfFuel) => (w, tr, OutOfFuel)
  end.

Definition lift {W A} (r : Result A) : M W A := λ w tr, (w, tr, r).

(** A call: the transition of the collaborator and the event that records
    it. *)
Definition call {W A} (op : W → W * A) (ev : A → event) : M W A := λ w tr,
  let '(w, a) := op w in (w, tr ++ [ev a], Done a).

(** [defer f()]: [f] runs when the function ends, be it by a return, a panic
    or the end of the test. *)
Definition defer {W A} (f : W → W) (ev : event) (body : M W A) : M W A := λ w tr,
  match body w tr with
  | (w, tr, OutOfFuel) => (w, tr, OutOfFuel)
  | (w, tr, r) => (f w, tr ++ [ev], r)
  end.

(** Modelled from the spec: [Ok(tb, err)] of the testutil package, which is
    outside of [testutil/db.go]. A failure of a collaborator is surfaced at
    once: a non-nil error ends the test. *)
Definition Ok {W} (err : option error) : M W unit :=
  match err with
  | None => mret ()
  | Some e => lift (Fatal e)
  end.

Section Harness.
Context {W : Type} `{Collaborators W}.

(** [for it.Next() { t, v := it.At(); if ref != 0 { if app.AddFast(ref, t, v) == nil { continue } };
    ref, err = app.Add(s.Labels(), t, v); Ok(tb, err) }] *)
Fixpoint append_loop (fuel : nat) (s : mockSeries) (it : listSeriesIterator) (ref : Z)
  : M W unit :=
  let '(it, more) := Next it in
  if more then
    match fuel with
    | O => lift OutOfFuel
    | S fuel' =>
        '(ts, x) ← lift (At it);
        appended ← (if negb (ref =? 0) then
                      err ← call (app_AddFast ref ts x) (EvAddFast ref ts x);
                      mret (bool_decide (err = None))
                    else mret false);
        if appended : bool then append_loop fuel' s it ref
        else
          '(ref, err) ← call (app_Add (Labels s) ts x)
                             (λ a, EvAdd (Labels s) ts x a.1 a.2);
          Ok err;;
          append_loop fuel' s it ref
    end
  else mret ().

(** [for _, s := range series { ref := uint64(0); it := s.Iterator(); ...; Ok(tb, it.Err()) }].
    Calling a method of a nil entry panics. *)
Fixpoint range_series (fuel : nat) (series : list (option mockSeries)) : M W unit :=
  match series with
  | [] => mret ()
  | s :: series =>
      s ← lift (match s with
                | Some s => Done s
                | None => Panic "nil pointer dereference"
                end);
      let ref := 0 in
      let it := Iterator s in
      append_loop fuel s it ref;;
      Ok (Err it);;
      range_series fuel series
  end.

Definition createHead (fuel : nat) (series : list (option mockSeries)) : M W unit :=
  err ← call tsdb_NewHead EvNewHead;
  Ok err;;
  defer head_Close EvClose (
    call (λ w, (head_Appender w, ())) (λ _, EvAppender);;
    range_series fuel series;;
    err ← call app_Commit EvCommit;
    Ok err).

Definition CreateBlock (fuel : nat) (dir : string) (series : list (option mockSeries))
  : M W string :=
  createHead fuel series;;
  err ← call tsdb_NewLeveledCompactor EvNewLeveledCompactor;
  Ok err;;
  err ← call (os_MkdirAll dir) (EvMkdirAll dir);
  Ok err;;
  mint ← call (λ w, (w, head_MinTime w)) EvMinTime;
  maxt ← call (λ w, (w, head_MaxTime w)) EvMaxTime;
  '(ulid, err) ← call (compactor_Write dir mint (wrap64 (maxt + 1)))
                      (λ a, EvWrite dir mint (wrap64 (maxt + 1)) a.1 a.2);
  Ok err;;
  mret (filepath_Join dir ulid).
End Harness.

(** ** A reference collaborator

    Modelled from the spec: the ingestion buffer, the compactor and the file
    system, which are outside of [testutil/db.go]. The buffer keeps the timestamps
    appended in the session and those committed; [MinTime] and [MaxTime] are
    the least and the greatest committed timestamp. [fast_ok] tells whether
    the fast append accepts a reference or is forced to fail. The full append
    always succeeds. *)
Record stub : Type := mk_stub { staged : list Z; stored : list Z }.

Definition stub_collaborators (fast_ok : bool) : Collaborators stub := {|
  tsdb_NewHead w := (w, None);
  head_Close w := w;
  head_Appender w := w;
  app_AddFast ref ts x w :=
    if fast_ok then (mk_stub (staged w ++ [ts]) (stored w), None)
    else (w, Some "unknown series");
  app_Add l ts x w := (mk_stub (staged w ++ [ts]) (stored w), (1, None));
  app_Commit w := (mk_stub [] (stored w ++ staged w), None);
  head_MinTime w := foldr Z.min int_max (stored w);
  head_MaxTime w := foldr Z.max int_min (stored w);
  tsdb_NewLeveledCompactor w := (w, None);
  os_MkdirAll dir w := (w, None);
  compactor_Write dir mint maxt w := (w, ("01", None));
  filepath_Join dir name := dir +:+ "/" +:+ name;
|}.

(** A random source for examples: the values to come. *)
Definition draws (r : list float) : float * list float := (hd 0%float r, tl r).

Definition five_samples : list sample :=
  [mk_sample 0 0.5; mk_sample 1 0.25; mk_sample 2 0.5; mk_sample 3 0.125; mk_sample 4 0.75].

(** ** Reference functions for the statements *)

(** The index of the first sample of [l] whose timestamp is at least [ts],
    or the length of [l] when there is none. *)
Fixpoint lower_bound (ts : Z) (l : list sample) : nat :=
  match l with
  | [] => 0
  | s :: l => if T s >=? ts then 0 else S (lower_bound ts l)
  end.

Definition sorted_by_time (l : list sample) : Prop :=
  ∀ (i j : nat) a b, l !! i = Some a → l !! j = Some b → (i ≤ j)%nat → T a ≤ T b.

(** The name and the value of the additional label of position [j]. *)
Definition extra_name (j : Z) : string := defaultLabelName +:+ Itoa j.
Definition extra_value (j : Z) : string := defaultLabelValue +:+ Itoa j.

(** The label map of the series of index [i] with [c] additional labels, of
    the positions [1] to [c]. *)
Fixpoint gen_labels (i : Z) (c : nat) : gmap string string :=
  match c with
  | O => <[defaultLabelName := Itoa i]> ∅
  | S c' => <[extra_name (Z.of_nat c) := extra_value (Z.of_nat c)]> (gen_labels i c')
  end.



(** Fuel that is enough for the three loops of [GenSeries]. *)
Definition gen_fuel (n k a b : Z) : nat := Z.to_nat n + Z.to_nat (Z.max k (b - a)).

(** What determinism is about: the labels and the timestamps of a fixture,
    without the sample values, and the outcome of [GenSeries] reduced to
    them. *)
Definition shape (m : mockSeries) : gmap string string * list Z :=
  (series_labels m, T <$> series_samples m).

Definition shapes {Rand : Type} (res : Result (list (option mockSeries) * Rand))
  : Result (list (option (gmap string string * list Z))) :=
  (λ p : list (option mockSeries) * Rand, fmap (M := option) shape <$> p.1) <$> res.


(** Readings of a trace: the appends that succeeded, those among them made
    by the full append, the commits, the times asked from the head and the
    requests to the compactor. *)
Definition appends (tr : list event) : list (Z * float) :=
  omap (λ e, match e with
             | EvAdd _ ts x _ None | EvAddFast _ ts x None => Some (ts, x)
             | _ => None
             end) tr.

Definition full_appends (tr : list event) : list (list Label * Z * float) :=
  omap (λ e, match e with
             | EvAdd l ts x _ None => Some (l, ts, x)
             | _ => None
             end) tr.

Definition commits (tr : list event) : list (option error) :=
  omap (λ e, match e with EvCommit err => Some err | _ => None end) tr.

Definition min_times (tr : list event) : list Z :=
  omap (λ e, match e with EvMinTime ts => Some ts | _ => None end) tr.

Definition max_times (tr : list event) : list Z :=
  omap (λ e, match e with EvMaxTime ts => Some ts | _ => None end) tr.

Definition write_requests (tr : list event) : list (string * Z * Z) :=
  omap (λ e, match e with
             | EvWrite dir mint maxt _ _ => Some (dir, mint, maxt)
             | _ => None
             end) tr.

(** The events of [createHead]. *)
Definition head_event (e : event) : Prop :=
  match e with
  | EvNewHead _ | EvClose | EvAppender | EvAddFast _ _ _ _ | EvAdd _ _ _ _ _
  | EvCommit _ => True
  | _ => False
  end.

(** The events of the loop over the samples of a series. *)
Definition append_event (e : event) : Prop :=
  match e with
  | EvAddFast _ _ _ _ | EvAdd _ _ _ _ _ => True
  | _ => False
  end.

(** A computation only adds events, and only events of [P], to the trace. *)
Definition emits {W A : Type} (P : event → Prop) (c : M W A) : Prop :=
  ∀ w tr, ∃ seg, (c w tr).1.2 = tr ++ seg ∧ Forall P seg.

(** The head reports [M] as its greatest timestamp and the compactor is asked,
    once, for a block up to [M + 1]. *)
Definition requests_max_plus_one (tr : list event) : Prop :=
  ∀ M, max_times tr = [M] → ∃ dir m, write_requests tr = [(dir, m, M + 1)].

(** The appends expected for a series: each of its samples once, in order. *)
Definition expected_appends (m : mockSeries) : list (Z * float) :=
  (λ s, (T s, V s)) <$> series_samples m.

Definition expected_full_appends (m : mockSeries) : list (list Label * Z * float) :=
  (λ s, (Labels m, T s, V s)) <$> series_samples m.

(** The fast append fails for every sample of the series, whatever the
    reference and the state. *)
Definition fast_fails_for {W : Type} `{Collaborators W} (m : mockSeries) : Prop :=
  ∀ ref w s, s ∈ series_samples m → (app_AddFast ref (T s) (V s) w).2 ≠ None.

(** The full append always succeeds. *)
Definition full_append_succeeds (W : Type) `{Collaborators W} : Prop :=
  ∀ l ts x w, (app_Add l ts x w).2.2 = None.

(** What the events [seg] of the loop over the samples of [m] are to be:
    appends only; every sample appended once, in order; by the full append
    alone when the fast append fails for every sample of [m]. *)
Definition series_appended {W : Type} `{Collaborators W}
    (m : mockSeries) (seg : list event) : Prop :=
  Forall append_event seg ∧
  appends seg = expected_appends m ∧
  (fast_fails_for m → full_appends seg = expected_full_appends m).


(** The errors of the full appends that failed. *)
Definition failed_adds (tr : list event) : list error :=
  omap (λ e, match e with EvAdd _ _ _ _ (Some err) => Some err | _ => None end) tr.

(** The discipline of the references in the events of one series, from the
    reference [cur]: a fast append is made with the current reference, which
    is not 0, and a full append makes the reference it returns the current
    one. *)
Fixpoint refs_ok (cur : Z) (seg : list event) : Prop :=
  match seg with
  | [] => True
  | EvAddFast ref _ _ _ :: seg => ref = cur ∧ cur ≠ 0 ∧ refs_ok cur seg
  | EvAdd _ _ _ ref _ :: seg => refs_ok ref seg
  | _ => False
  end.

(** The events of the loop over the samples of a series with the labels [l],
    from the reference [cur], and its outcome. [pending] is the sample whose
    fast append has just failed: the full append of this sample comes next.
    A full append is made with the labels of the series, for the pending
    sample or, without one, when the reference is 0. A full append that fails
    ends the loop with its error, and the loop ends with an error in no other
    way. *)
Fixpoint loop_shape (l : list Label) (cur : Z) (pending : option (Z * float))
    (seg : list event) (res : Result unit) : Prop :=
  match seg with
  | [] => pending = None ∧ match res with Fatal _ => False | _ => True end
  | EvAddFast ref ts x err :: seg =>
      pending = None ∧ ref = cur ∧ cur ≠ 0 ∧
      loop_shape l cur (match err with None => None | Some _ => Some (ts, x) end) seg res
  | EvAdd l' ts x ref err :: seg =>
      l' = l ∧
      match pending with None => cur = 0 | Some p => p = (ts, x) end ∧
      match err with
      | None => loop_shape l ref None seg res
      | Some e => seg = [] ∧ res = Fatal e
      end
  | _ => False
  end.

(** How a run of appends ends: with the error of a full append that failed,
    which is then the last event and the only failure, or without any failed
    full append. *)
Definition fail_shape (seg : list event) (res : Result unit) : Prop :=
  match res with
  | Fatal e =>
      ∃ pre l ts x ref, seg = pre ++ [EvAdd l ts x ref (Some e)] ∧ failed_adds pre = []
  | _ => failed_adds seg = []
  end.

(** The runs of [createHead] on [n] series: the events and the outcome. The
    events of the series are [segs], one list for each series that was
    reached. *)
Inductive createHead_run (n : nat) : list event → Result unit → Prop :=
| run_no_head (e : error) :
    createHead_run n [EvNewHead (Some e)] (Fatal e)
| run_commit (segs : list (list event)) (err : option error) :
    (length segs ≤ n)%nat → Forall (refs_ok 0) segs →
    Forall append_event (concat segs) → failed_adds (concat segs) = [] →
    createHead_run n
      ([EvNewHead None; EvAppender] ++ concat segs ++ [EvCommit err; EvClose])
      (match err with None => Done () | Some e => Fatal e end)
| run_failed_add (segs : list (list event)) (pre : list event) (l : list Label)
    (ts : Z) (x : float) (ref : Z) (e : error) :
    (length segs ≤ n)%nat → Forall (refs_ok 0) segs →
    Forall append_event (concat segs) →
    concat segs = pre ++ [EvAdd l ts x ref (Some e)] → failed_adds pre = [] →
    createHead_run n
      ([EvNewHead None; EvAppender] ++ concat segs ++ [EvClose]) (Fatal e)
| run_panic (segs : list (list event)) (msg : string) :
    (length segs ≤ n)%nat → Forall (refs_ok 0) segs →
    Forall append_event (concat segs) → failed_adds (concat segs) = [] →
    createHead_run n
      ([EvNewHead None; EvAppender] ++ concat segs ++ [EvClose]) (Panic msg)
| run_out_of_fuel (segs : list (list event)) :
    (length segs ≤ n)%nat → Forall (refs_ok 0) segs →
    Forall append_event (concat segs) → failed_adds (concat segs) = [] →
    createHead_run n ([EvNewHead None; EvAppender] ++ concat segs) OutOfFuel.

(** The fast append always succeeds, and the full append returns references
    other than 0. *)
Definition fast_append_succeeds (W : Type) `{Collaborators W} : Prop :=
  ∀ ref ts x w, (app_AddFast ref ts x w).2 = None.

Definition full_append_refs_nonzero (W : Type) `{Collaborators W} : Prop :=
  ∀ l ts x w, (app_Add l ts x w).2.1 ≠ 0.

(** What the events [seg] of a series are on the fast path: every sample
    appended once, in order, the first one by the full append and it alone. *)
Definition series_appended_fast (m : mockSeries) (seg : list event) : Prop :=
  appends seg = expected_appends m ∧
  full_appends seg = take 1 (expected_full_appends m).

(** * Properties *)

(** ** Machine integers *)

Lemma wrap64_id (z : Z) : in_int z → wrap64 z = z.
Proof.
  unfold in_int, int_min, int_max, wrap64. intros Hz.
  rewrite Z.mod_small by lia. lia.
Qed.

Lemma len_nonneg {A} (l : list A) : 0 ≤ len l.
Proof. unfold len. lia. Qed.

Lemma index_lookup {A} (l : list A) (i : nat) (x : A) :
  l !! i = Some x → index l (Z.of_nat i) = Done x.
Proof.
  intros Hi. unfold index, len.
  pose proof (lookup_lt_Some _ _ _ Hi).
  rewrite bool_decide_eq_true_2 by lia.
  by rewrite Nat2Z.id, Hi.
Qed.

(** ** sort.Search *)

Lemma lower_bound_le (ts : Z) (l : list sample) : (lower_bound ts l ≤ length l)%nat.
Proof. induction l as [|s l IH]; simpl; [lia|]. destruct (T s >=? ts); simpl; lia. Qed.

Lemma lower_bound_before (ts : Z) (l : list sample) (i : nat) (s : sample) :
  (i < lower_bound ts l)%nat → l !! i = Some s → T s < ts.
Proof.
  revert i. induction l as [|a l IH]; intros i; simpl; [lia|].
  destruct (T a >=? ts) eqn:Ha; [lia|].
  destruct i as [|i]; simpl.
  - intros _ [= ->]. rewrite Z.geb_leb in Ha. lia.
  - intros Hi. apply IH. lia.
Qed.

Lemma lower_bound_at (ts : Z) (l : list sample) (s : sample) :
  l !! lower_bound ts l = Some s → ts ≤ T s.
Proof.
  induction l as [|a l IH]; simpl; [done|].
  destruct (T a >=? ts) eqn:Ha; simpl; [|done].
  intros [= ->]. rewrite Z.geb_leb in Ha. lia.
Qed.

(** A boundary between the samples before [ts] and those from [ts] on is the
    lower bound. *)
Lemma lower_bound_unique (ts : Z) (l : list sample) (r : nat) :
  (r ≤ length l)%nat →
  (∀ i s, (i < r)%nat → l !! i = Some s → T s < ts) →
  (∀ s, l !! r = Some s → ts ≤ T s) →
  lower_bound ts l = r.
Proof.
  intros Hr Hlt Hge.
  destruct (Nat.lt_trichotomy (lower_bound ts l) r) as [Hc|[Hc|Hc]]; [|done|].
  - destruct (lookup_lt_is_Some_2 l (lower_bound ts l)) as [s Hs]; [lia|].
    pose proof (lower_bound_at _ _ _ Hs). pose proof (Hlt _ _ Hc Hs). lia.
  - destruct (lookup_lt_is_Some_2 l r) as [s Hs].
    { pose proof (lower_bound_le ts l). lia. }
    pose proof (lower_bound_before _ _ _ _ Hc Hs). pose proof (Hge _ Hs). lia.
Qed.

Lemma Search_loop_boundary (p : Z → bool) (f : Z → Result bool) (n : Z) :
  0 ≤ n ≤ int_max →
  (∀ x, 0 ≤ x < n → f x = Done (p x)) →
  (∀ x y, 0 ≤ x ≤ y → y < n → p x = true → p y = true) →
  ∀ (fuel : nat) (i j : Z),
    0 ≤ i ≤ j → j ≤ n → (Z.to_nat (j - i) ≤ fuel)%nat →
    (∀ x, 0 ≤ x < i → p x = false) →
    (∀ x, j ≤ x < n → p x = true) →
    ∃ r, Search_loop fuel i j f = Done r ∧ i ≤ r ≤ j ∧
         (∀ x, 0 ≤ x < r → p x = false) ∧ (∀ x, r ≤ x < n → p x = true).
Proof.
  intros Hn Hf Hmono. unfold int_max in Hn.
  induction fuel as [|fuel IH]; intros i j Hij Hjn Hfuel Hlo Hhi; simpl.
  - assert (i = j) as -> by lia. rewrite Z.ltb_irrefl. eauto with lia.
  - destruct (i <? j) eqn:Hlt; [|exists i; split_and!; auto with lia].
    apply Z.ltb_lt in Hlt.
    rewrite Z.mod_small by lia. rewrite Z.shiftr_div_pow2 by lia.
    change (2 ^ 1) with 2.
    assert (i ≤ (i + j) `div` 2 < j) as Hh.
    { split; [apply Z.div_le_lower_bound|apply Z.div_lt_upper_bound]; lia. }
    set (h := (i + j) `div` 2) in *.
    rewrite Hf by lia. simpl. destruct (p h) eqn:Hp; simpl.
    + destruct (IH i h) as (r & -> & ? & ? & ?); [lia..|done| |].
      { intros x Hx. apply (Hmono h x); [lia..|done]. }
      exists r. split_and!; auto with lia.
    + rewrite wrap64_id by (unfold in_int, int_min, int_max; lia).
      destruct (IH (h + 1) j) as (r & -> & ? & ? & ?); [lia..| |done|].
      { intros x Hx. destruct (p x) eqn:Hpx; [|done].
        rewrite <-Hp. symmetry. apply (Hmono x h); [lia..|done]. }
      exists r. split_and!; auto with lia.
Qed.

(** ** Seek *)

(** What [Seek] does on a list sorted by time from the cursor on: the new
    position is the offset, counted from the old position, of the first
    sample of the window with a timestamp of at least [ts]. The old position
    is not added to it. *)
Lemma Seek_offset (fuel : nat) (ts : Z) (it : listSeriesIterator) :
  -1 ≤ idx it ≤ len (lst it) → len (lst it) ≤ int_max →
  sorted_by_time (drop (Z.to_nat (idx it)) (lst it)) →
  (length (lst it) - Z.to_nat (idx it) ≤ fuel)%nat →
  let r := Z.of_nat (lower_bound ts (drop (Z.to_nat (idx it)) (lst it))) in
  Seek fuel ts it = Done (mk_iter (lst it) r, r <? len (lst it)).
Proof.
  destruct it as [l i]; simpl. intros Hi Hlen Hsorted Hfuel.
  unfold Seek; simpl.
  set (q := if i =? -1 then 0 else i).
  assert (0 ≤ q ≤ len l ∧ Z.to_nat q = Z.to_nat i) as [Hq Hqi].
  { pose proof (len_nonneg l). unfold q.
    destruct (i =? -1) eqn:E; [apply Z.eqb_eq in E|apply Z.eqb_neq in E]; lia. }
  assert (lst (if i =? -1 then mk_iter l 0 else mk_iter l i) = l) as -> by by destruct (i =? -1).
  assert (idx (if i =? -1 then mk_iter l 0 else mk_iter l i) = q) as -> by by destruct (i =? -1).
  rewrite <-Hqi in *. clearbody q. clear Hi Hqi i.
  unfold int_max, len in *.
  rewrite wrap64_id by (unfold in_int, int_min, int_max; lia).
  set (p := λ x : Z, match l !! Z.to_nat (x + q) with
                     | Some s => T s >=? ts
                     | None => false
                     end).
  unfold Search.
  set (f := λ i : Z, s ← index l (wrap64 (i + q)); Done (T s >=? ts)).
  destruct (Search_loop_boundary p f (Z.of_nat (length l) - q)) with (fuel := fuel)
    (i := 0) (j := Z.of_nat (length l) - q) as (r & -> & Hr & Hlo & Hhi);
    [| | |lia|lia|lia|intros; lia|intros; lia|].
  - unfold int_max. lia.
  - intros x Hx. unfold f.
    rewrite wrap64_id by (unfold in_int, int_min, int_max; lia).
    destruct (lookup_lt_is_Some_2 l (Z.to_nat (x + q))) as [s Hs]; [lia|].
    unfold p. rewrite Hs.
    rewrite <-(Z2Nat.id (x + q)) by lia. by rewrite (index_lookup _ _ _ Hs).
  - intros x y Hxy Hy. unfold p.
    destruct (lookup_lt_is_Some_2 l (Z.to_nat (x + q))) as [a Ha]; [lia|].
    destruct (lookup_lt_is_Some_2 l (Z.to_nat (y + q))) as [b Hb]; [lia|].
    rewrite Ha, Hb, !Z.geb_leb, !Z.leb_le. intros Hge.
    etrans; [exact Hge|].
    apply (Hsorted (Z.to_nat x) (Z.to_nat y)); rewrite ?lookup_drop; [| |lia].
    + by replace (Z.to_nat q + Z.to_nat x)%nat with (Z.to_nat (x + q)) by lia.
    + by replace (Z.to_nat q + Z.to_nat y)%nat with (Z.to_nat (y + q)) by lia.
  - simpl.
    assert (lower_bound ts (drop (Z.to_nat q) l) = Z.to_nat r) as ->.
    { apply lower_bound_unique.
      - rewrite length_drop. lia.
      - intros k s Hk. rewrite lookup_drop. intros Hs.
        specialize (Hlo (Z.of_nat k)). unfold p in Hlo.
        replace (Z.to_nat (Z.of_nat k + q)) with (Z.to_nat q + k)%nat in Hlo by lia.
        rewrite Hs, Z.geb_leb in Hlo. apply Z.leb_gt, Hlo. lia.
      - intros s. rewrite lookup_drop. intros Hs.
        pose proof (lookup_lt_Some _ _ _ Hs).
        specialize (Hhi r). unfold p in Hhi.
        replace (Z.to_nat (r + q)) with (Z.to_nat q + Z.to_nat r)%nat in Hhi by lia.
        rewrite Hs, Z.geb_leb in Hhi. apply Z.leb_le, Hhi. lia. }
    by rewrite Z2Nat.id by lia.
Qed.

(** From the start, where the offset is the position, [Seek] lands on the
    first sample with a timestamp of at least [ts]. *)
Lemma Seek_from_start (fuel : nat) (ts : Z) (l : list sample) :
  len l ≤ int_max → sorted_by_time l → (length l ≤ fuel)%nat →
  let r := Z.of_nat (lower_bound ts l) in
  Seek fuel ts (newListSeriesIterator l) = Done (mk_iter l r, r <? len l).
Proof.
  intros Hlen Hsorted Hfuel.
  apply (Seek_offset fuel ts (newListSeriesIterator l)); simpl; try done.
  - pose proof (len_nonneg l). lia.
  - lia.
Qed.

(** On a sorted list, from a valid position [p], a target that is at most the
    timestamp at [p] sends the cursor to position 0. *)
Lemma Seek_earlier_target_resets (fuel : nat) (ts : Z) (l : list sample) (p : nat)
    (s : sample) :
  len l ≤ int_max → sorted_by_time l → l !! p = Some s → ts ≤ T s →
  (length l - p ≤ fuel)%nat →
  Seek fuel ts (mk_iter l (Z.of_nat p)) = Done (mk_iter l 0, true).
Proof.
  intros Hlen Hsorted Hs Hts Hfuel.
  pose proof (lookup_lt_Some _ _ _ Hs) as Hp.
  pose proof (Seek_offset fuel ts (mk_iter l (Z.of_nat p))) as Hseek.
  cbn [lst idx] in Hseek. rewrite Nat2Z.id in Hseek.
  rewrite (drop_S _ _ _ Hs) in Hseek. cbn [lower_bound] in Hseek.
  rewrite (proj2 (Z.geb_le _ _)) in Hseek by done.
  rewrite Hseek; [|unfold len; lia|done| |done].
  - f_equal. f_equal. apply Z.ltb_lt. unfold len. lia.
  - rewrite <-(drop_S _ _ _ Hs). intros i j a b. rewrite !lookup_drop.
    intros Ha Hb Hij. apply (Hsorted _ _ _ _ Ha Hb). lia.
Qed.

(** C1, at a failing input. The iterator is over five samples with the
    timestamps 0 to 4 and has been advanced three times, so that its position
    is 2. [Seek(3)] searches the window of the positions 2 to 4 and finds the
    offset 1 in it, and this offset becomes the position: the cursor moves
    back from 2 to 1, onto the sample of timestamp 1, which is less than the
    target, and [Seek] returns true. The first sample with a timestamp of at
    least 3 is at position 3. *)
Theorem Seek_lands_before_cursor (fuel : nat) :
  let it := after_nexts 3 (newListSeriesIterator five_samples) in
  idx it = 2 ∧
  Seek (S (S fuel)) 3 it = Done (mk_iter five_samples 1, true) ∧
  T <$> five_samples !! 1%nat = Some 1 ∧
  T <$> five_samples !! 3%nat = Some 3.
Proof. destruct fuel; split_and!; vm_compute; reflexivity. Qed.

(** C2, at a failing input. The same iterator is at position 2, on the
    sample of timestamp 2. [Seek(1)], whose target is less than 2, sets the
    position to 0: the cursor moves. *)
Theorem Seek_earlier_target_moves_cursor (fuel : nat) :
  let it := after_nexts 3 (newListSeriesIterator five_samples) in
  At it = Done (2, 0.5%float) ∧
  Seek (S (S fuel)) 1 it = Done (mk_iter five_samples 0, true).
Proof. destruct fuel; split; vm_compute; reflexivity. Qed.

(** ** Next and At *)

Lemma after_nexts_lst (n : nat) (it : listSeriesIterator) :
  lst (after_nexts n it) = lst it.
Proof. induction n as [|n IH]; simpl; [done|]. exact IH. Qed.

Lemma after_nexts_idx (n : nat) (l : list sample) :
  Z.of_nat n ≤ int_max + 1 →
  idx (after_nexts n (newListSeriesIterator l)) = Z.of_nat n - 1.
Proof.
  unfold int_max. induction n as [|n IH]; intros Hn; [done|].
  change (idx (after_nexts (S n) (newListSeriesIterator l)))
    with (wrap64 (idx (after_nexts n (newListSeriesIterator l)) + 1)).
  rewrite IH by lia.
  rewrite wrap64_id by (unfold in_int, int_min, int_max; lia). lia.
Qed.

(** C6. On a fresh iterator over [S], the call number [i] of [Next] (from 0)
    returns true for every [i] below the length of [S], and [At] then returns
    the timestamp and the value of [S[i]]; the call that follows the last of
    these returns false. Hence [Next] succeeds exactly [len(S)] times and the
    samples are visited once each, in order. A Go slice has at most
    [int_max] elements. *)
Theorem Next_visits_in_order (S : list sample) :
  len S ≤ int_max →
  (∀ (i : nat) (x : sample), S !! i = Some x →
     let it := after_nexts i (newListSeriesIterator S) in
     (Next it).2 = true ∧ At (Next it).1 = Done (T x, V x)) ∧
  (Next (after_nexts (length S) (newListSeriesIterator S))).2 = false.
Proof.
  intros Hlen. unfold len, int_max in Hlen. split.
  - intros i x Hx. pose proof (lookup_lt_Some _ _ _ Hx) as Hi. simpl.
    unfold Next, At; simpl. rewrite after_nexts_lst, after_nexts_idx by (unfold int_max; lia).
    simpl. replace (Z.of_nat i - 1 + 1) with (Z.of_nat i) by lia.
    rewrite wrap64_id by (unfold in_int, int_min, int_max; lia).
    split; [apply Z.ltb_lt; unfold len; lia|].
    by rewrite (index_lookup _ _ _ Hx).
  - unfold Next; simpl. rewrite after_nexts_lst, after_nexts_idx by (unfold int_max; lia).
    simpl. replace (Z.of_nat (length S) - 1 + 1) with (Z.of_nat (length S)) by lia.
    rewrite wrap64_id by (unfold in_int, int_min, int_max; lia).
    apply Z.ltb_irrefl.
Qed.

Lemma Next_visits_in_order_witness :
  len five_samples ≤ int_max ∧
  ((∀ (i : nat) (x : sample), five_samples !! i = Some x →
     let it := after_nexts i (newListSeriesIterator five_samples) in
     (Next it).2 = true ∧ At (Next it).1 = Done (T x, V x)) ∧
   (Next (after_nexts (length five_samples) (newListSeriesIterator five_samples))).2 = false).
Proof.
  assert (len five_samples ≤ int_max) as H by (vm_compute; discriminate).
  split; [exact H|]. exact (Next_visits_in_order five_samples H).
Defined.

(** ** Labels *)

Lemma pretty_N_go_nonempty (x : N) (s : string) : s ≠ "" → pretty_N_go x s ≠ "".
Proof.
  revert s. induction (N.lt_wf_0 x) as [x _ IH]; intros s Hs.
  assert (x = 0 ∨ 0 < x)%N as [->|Hx] by lia.
  - by rewrite pretty_N_go_0.
  - rewrite pretty_N_go_step by done. apply IH; [by apply N.div_lt|done].
Qed.

Lemma Itoa_nonempty (i : Z) : Itoa i ≠ "".
Proof.
  destruct i as [|p|p]; unfold Itoa, pretty, pretty_Z; [done| |done].
  unfold pretty, pretty_positive, pretty, pretty_N.
  rewrite decide_False by done.
  rewrite pretty_N_go_step by lia. by apply pretty_N_go_nonempty.
Qed.

Lemma extra_name_inj (j j' : Z) : extra_name j = extra_name j' → j = j'.
Proof.
  unfold extra_name, Itoa. intros Hj.
  apply (inj (String.app defaultLabelName)) in Hj. by apply (inj pretty) in Hj.
Qed.


Lemma extra_name_ne_base (j : Z) : extra_name j ≠ defaultLabelName.
Proof.
  unfold extra_name. intros Hj.
  assert (defaultLabelName = defaultLabelName +:+ "") as Hd by done.
  rewrite Hd in Hj at 2.
  apply (inj (String.app defaultLabelName)) in Hj. by apply Itoa_nonempty in Hj.
Qed.


Lemma gen_labels_extra (i : Z) (c : nat) (j : Z) :
  gen_labels i c !! extra_name j =
    if bool_decide (1 ≤ j ≤ Z.of_nat c) then Some (extra_value j) else None.
Proof.
  induction c as [|c IH].
  - rewrite bool_decide_eq_false_2 by lia. cbn [gen_labels].
    rewrite lookup_insert_ne; [done|]. intros Hj. by apply (extra_name_ne_base j).
  - cbn [gen_labels]. destruct (decide (j = Z.of_nat (S c))) as [->|Hne].
    + rewrite lookup_insert_eq. by rewrite bool_decide_eq_true_2 by lia.
    + rewrite lookup_insert_ne by (intros Hj%extra_name_inj; lia).
      rewrite IH. repeat case_bool_decide; try done; lia.
Qed.


Lemma gen_labels_size (i : Z) (c : nat) : size (gen_labels i c) = S c.
Proof.
  induction c as [|c IH]; cbn [gen_labels].
  - by rewrite map_size_insert_None, map_size_empty by apply lookup_empty.
  - rewrite map_size_insert_None, IH; [done|].
    rewrite gen_labels_extra. by rewrite bool_decide_eq_false_2 by lia.
Qed.

(** The label loop ends, with [labelCount - 1] additional labels, or none
    when [labelCount] is at most 1. *)
Lemma label_loop_gen_labels (fuel : nat) (k i : Z) (c : nat) :
  k ≤ int_max →
  (Z.to_nat (k - 1) - c ≤ fuel)%nat →
  label_loop fuel k (Z.of_nat c + 1) (gen_labels i c) =
    Done (gen_labels i (c `max` Z.to_nat (k - 1))).
Proof.
  unfold int_max. intros Hk. revert c.
  induction fuel as [|fuel IH]; intros c Hfuel; simpl; rewrite gen_labels_size.
  - rewrite (proj2 (Z.ltb_ge _ _)) by lia. by rewrite Nat.max_l by lia.
  - destruct (Z.of_nat (S c) <? k) eqn:Hc;
      [apply Z.ltb_lt in Hc|apply Z.ltb_ge in Hc; by rewrite Nat.max_l by lia].
    rewrite wrap64_id by (unfold in_int, int_min, int_max; lia).
    replace (Z.of_nat c + 1 + 1) with (Z.of_nat (S c) + 1) by lia.
    replace (Z.of_nat c + 1) with (Z.of_nat (S c)) by lia.
    change (<[defaultLabelName +:+ Itoa (Z.of_nat (S c)) :=
              defaultLabelValue +:+ Itoa (Z.of_nat (S c))]> (gen_labels i c))
      with (gen_labels i (S c)).
    rewrite IH by lia. f_equal. f_equal. lia.
Qed.

(** ** Samples *)

Section GenSeries_facts.
Context {Rand : Type} (Float64 : Rand → float * Rand).





(** One fixture, when the capacity asked for its samples is negative. *)
Lemma gen_one_panic (fuel : nat) (i k a b : Z) (r : Rand) :
  sample_cap a b < 0 → k ≤ int_max → (Z.to_nat (k - 1) ≤ fuel)%nat →
  gen_one Float64 fuel i k a b r = Panic "makeslice: cap out of range".
Proof.
  intros Hcap Hk Hfuel. unfold gen_one.
  pose proof (label_loop_gen_labels fuel k i 0) as Hl.
  change (Z.of_nat 0 + 1) with 1 in Hl. cbn [gen_labels Nat.max] in Hl.
  rewrite Hl by lia. simpl.
  unfold make_empty. by rewrite (proj2 (Z.ltb_lt _ _)) by lia.
Qed.



(** [GenSeries] on at least one series and one label: a panic, when the
    capacity asked for the samples is negative. *)
Lemma GenSeries_panic (fuel : nat) (n k a b : Z) (r : Rand) :
  sample_cap a b < 0 → 1 ≤ n → 1 ≤ k ≤ int_max →
  (gen_fuel n k a b ≤ fuel)%nat →
  GenSeries Float64 fuel n k a b r = Panic "makeslice: cap out of range".
Proof.
  intros Hcap Hn Hk Hfuel. unfold GenSeries, gen_fuel in *.
  rewrite (proj2 (Z.eqb_neq n 0)), (proj2 (Z.eqb_neq k 0)) by lia. simpl.
  unfold make_slice. rewrite (proj2 (Z.ltb_ge _ _)) by lia. simpl.
  destruct fuel as [|fuel]; [lia|]. cbn [series_loop].
  rewrite (proj2 (Z.ltb_lt 0 n)) by lia.
  by rewrite gen_one_panic by lia.
Qed.




End GenSeries_facts.



(** C3, at a failing input. For three series of two labels over the range
    from 5 to 0, the capacity asked for the samples is [0 - 5 + 1], which is
    negative: [GenSeries] panics and returns no fixture, where three fixtures
    without samples are expected. *)
Theorem GenSeries_panics_at_5_0 {Rand : Type} (Float64 : Rand → float * Rand)
    (fuel : nat) (r : Rand) :
  GenSeries Float64 (5 + fuel) 3 2 5 0 r = Panic "makeslice: cap out of range".
Proof.
  apply GenSeries_panic; [by vm_compute|lia|by vm_compute|].
  unfold gen_fuel. simpl. lia.
Qed.

(** C4, on the failing inputs. With at least one series and one label, on a
    range with [maxt < mint - 1] (and [mint - maxt] within [int64]),
    [GenSeries] panics: the capacity [maxt-mint+1] asked for the samples is
    negative. *)
Theorem GenSeries_panics_on_reversed_range {Rand : Type} (Float64 : Rand → float * Rand)
    (fuel : nat) (n k a b : Z) (r : Rand) :
  1 ≤ n → 1 ≤ k ≤ int_max → int_min ≤ b - a → b < a - 1 →
  (gen_fuel n k a b ≤ fuel)%nat →
  GenSeries Float64 fuel n k a b r = Panic "makeslice: cap out of range".
Proof.
  intros Hn Hk Hlo Hlt Hfuel. apply GenSeries_panic; [|done..].
  unfold sample_cap, int_min in *.
  rewrite (wrap64_id (b - a)) by (unfold in_int, int_min, int_max; lia).
  rewrite wrap64_id by (unfold in_int, int_min, int_max; lia). lia.
Qed.

Lemma GenSeries_panics_on_reversed_range_witness :
  GenSeries draws 2 1 1 5 0 [] = Panic "makeslice: cap out of range".
Proof.
  apply GenSeries_panics_on_reversed_range; [lia|by vm_compute|by vm_compute|lia|].
  unfold gen_fuel. simpl. lia.
Defined.

(** ** Determinism of labels and timestamps *)

Section Two_sources.
Context {Rand1 Rand2 : Type}.
Context (Float64_1 : Rand1 → float * Rand1) (Float64_2 : Rand2 → float * Rand2).

Lemma sample_loop_times (fuel : nat) (ts maxt : Z) (acc1 acc2 : list sample)
    (r1 : Rand1) (r2 : Rand2) :
  T <$> acc1 = T <$> acc2 →
  (λ p : list sample * Rand1, T <$> p.1) <$> sample_loop Float64_1 fuel ts maxt acc1 r1 =
  (λ p : list sample * Rand2, T <$> p.1) <$> sample_loop Float64_2 fuel ts maxt acc2 r2.
Proof.
  revert ts acc1 acc2 r1 r2.
  induction fuel as [|fuel IH]; intros ts acc1 acc2 r1 r2 Hacc; simpl.
  - destruct (ts <? maxt); simpl; [done|by rewrite Hacc].
  - destruct (ts <? maxt); simpl; [|by rewrite Hacc].
    destruct (Float64_1 r1) as [x1 r1'], (Float64_2 r2) as [x2 r2'].
    apply IH. by rewrite !fmap_app, Hacc.
Qed.

Lemma gen_one_shape (fuel : nat) (i k a b : Z) (r1 : Rand1) (r2 : Rand2) :
  (λ p : mockSeries * Rand1, shape p.1) <$> gen_one Float64_1 fuel i k a b r1 =
  (λ p : mockSeries * Rand2, shape p.1) <$> gen_one Float64_2 fuel i k a b r2.
Proof.
  unfold gen_one.
  destruct (label_loop fuel k 1 _) as [lbls| | |]; simpl; try done.
  destruct (make_empty (sample_cap a b)) as [acc| | |]; simpl; try done.
  pose proof (sample_loop_times fuel a b acc acc r1 r2 eq_refl) as Hs.
  destruct (sample_loop Float64_1 fuel a b acc r1) as [[s1 r1']| | |],
           (sample_loop Float64_2 fuel a b acc r2) as [[s2 r2']| | |];
    simpl in *; try done; try (by simplify_eq).
  injection Hs as Hs. unfold shape. simpl. by rewrite Hs.
Qed.

Lemma series_loop_shape (fuel : nat) (i n k a b : Z)
    (series1 series2 : list (option mockSeries)) (r1 : Rand1) (r2 : Rand2) :
  fmap (M := option) shape <$> series1 = fmap (M := option) shape <$> series2 →
  shapes (series_loop Float64_1 fuel i n k a b series1 r1) =
  shapes (series_loop Float64_2 fuel i n k a b series2 r2).
Proof.
  revert i series1 series2 r1 r2.
  induction fuel as [|fuel IH]; intros i series1 series2 r1 r2 Hser;
    cbn [series_loop].
  - destruct (i <? n); simpl; [done|by rewrite Hser].
  - destruct (i <? n); simpl; [|by rewrite Hser].
    pose proof (gen_one_shape (S fuel) i k a b r1 r2) as Hg.
    destruct (gen_one Float64_1 (S fuel) i k a b r1) as [[m1 r1']| | |],
             (gen_one Float64_2 (S fuel) i k a b r2) as [[m2 r2']| | |];
      simpl in *; try done; try (by simplify_eq).
    assert (shape m1 = shape m2) as Hm by (unfold shape in *; congruence).
    clear Hg.
    assert (len series1 = len series2) as Hlen.
    { unfold len. by rewrite <-(length_fmap (fmap (M := option) shape) series1), Hser, length_fmap. }
    unfold store. rewrite Hlen. case_bool_decide; simpl; [|done].
    apply IH. rewrite !list_fmap_insert. simpl. by rewrite Hm, Hser.
Qed.

(** C8. For the same arguments (and the same fuel), two calls of [GenSeries]
    that draw from any two random sources, in any two states, have the same
    outcome up to the sample values: they return fixtures with the same label
    maps and the same sequences of timestamps, or both stop in the same way.
    With [GenSeries_cardinality], fixtures are returned whenever the capacity
    of the samples is not negative and the fuel is enough. *)
Theorem GenSeries_deterministic (fuel : nat) (totalSeries labelCount mint maxt : Z)
    (r1 : Rand1) (r2 : Rand2) :
  shapes (GenSeries Float64_1 fuel totalSeries labelCount mint maxt r1) =
  shapes (GenSeries Float64_2 fuel totalSeries labelCount mint maxt r2).
Proof.
  unfold GenSeries.
  destruct ((totalSeries =? 0) || (labelCount =? 0)); [done|].
  destruct (make_slice totalSeries) as [series| | |]; simpl; try done.
  by apply series_loop_shape.
Qed.

End Two_sources.

(** ** The labels of the fixtures *)







(** ** The events of a run *)

Section Events.
Context {W : Type} `{Collaborators W}.

Lemma emits_ret {A} (P : event → Prop) (a : A) : emits (W := W) P (mret a).
Proof. intros w tr. exists []. by rewrite app_nil_r. Qed.

Lemma emits_lift {A} (P : event → Prop) (r : Result A) : emits (W := W) P (lift r).
Proof. intros w tr. exists []. by rewrite app_nil_r. Qed.

Lemma emits_Ok (P : event → Prop) (err : option error) : emits (W := W) P (Ok err).
Proof. destruct err; [apply emits_lift|apply emits_ret]. Qed.

Lemma emits_call {A} (P : event → Prop) (op : W → W * A) (ev : A → event) :
  (∀ a, P (ev a)) → emits P (call op ev).
Proof.
  intros HP w tr. unfold call. destruct (op w) as [w' a].
  exists [ev a]. split; [done|]. by constructor.
Qed.

Lemma emits_bind {A B} (P : event → Prop) (c : M W A) (k : A → M W B) :
  emits P c → (∀ a, emits P (k a)) → emits P (c ≫= k).
Proof.
  intros Hc Hk w tr. unfold mbind, M_bind.
  destruct (Hc w tr) as (seg & Hseg & HP).
  destruct (c w tr) as [[w1 tr1] [a| | |]]; simpl in Hseg; subst tr1; eauto.
  destruct (Hk a w1 (tr ++ seg)) as (seg' & -> & HP').
  exists (seg ++ seg'). split; [by rewrite app_assoc|by apply Forall_app].
Qed.

Lemma emits_defer {A} (P : event → Prop) (f : W → W) (ev : event) (c : M W A) :
  P ev → emits P c → emits P (defer f ev c).
Proof.
  intros Hev Hc w tr. unfold defer.
  destruct (Hc w tr) as (seg & Hseg & HP).
  destruct (c w tr) as [[w1 tr1] [a| | |]]; simpl in *; subst tr1; eauto;
    (exists (seg ++ [ev]); split; [by rewrite app_assoc|];
     apply Forall_app; split; [done|by constructor]).
Qed.

Lemma emits_weaken {A} (P Q : event → Prop) (c : M W A) :
  (∀ e, P e → Q e) → emits P c → emits Q c.
Proof.
  intros HPQ Hc w tr. destruct (Hc w tr) as (seg & ? & HP).
  exists seg. split; [done|]. by eapply Forall_impl.
Qed.

Lemma append_loop_emits (fuel : nat) (s : mockSeries) (it : listSeriesIterator) (ref : Z) :
  emits append_event (append_loop fuel s it ref).
Proof.
  revert it ref. induction fuel as [|fuel IH]; intros it ref; simpl.
  - destruct (wrap64 (idx it + 1) <? len (lst it)); [apply emits_lift|apply emits_ret].
  - destruct (wrap64 (idx it + 1) <? len (lst it)); [|apply emits_ret].
    apply emits_bind; [apply emits_lift|]. intros [ts x].
    apply emits_bind.
    { destruct (negb (ref =? 0)); [|apply emits_ret].
      apply emits_bind; [by apply emits_call|]. intros. apply emits_ret. }
    intros [|]; [apply IH|].
    apply emits_bind; [by apply emits_call|]. intros [ref' err].
    apply emits_bind; [apply emits_Ok|]. intros _. apply IH.
Qed.

Lemma range_series_emits (fuel : nat) (series : list (option mockSeries)) :
  emits append_event (range_series fuel series).
Proof.
  induction series as [|s series IH]; simpl; [apply emits_ret|].
  apply emits_bind; [apply emits_lift|]. intros m.
  apply emits_bind; [apply append_loop_emits|]. intros _.
  apply emits_bind; [apply emits_ret|]. intros _. apply IH.
Qed.

Lemma createHead_emits (fuel : nat) (series : list (option mockSeries)) :
  emits head_event (createHead fuel series).
Proof.
  unfold createHead.
  apply emits_bind; [by apply emits_call|]. intros err.
  apply emits_bind; [apply emits_Ok|]. intros _.
  apply emits_defer; [done|].
  apply emits_bind; [by apply emits_call|]. intros _.
  apply emits_bind.
  { apply (emits_weaken append_event); [by intros []|apply range_series_emits]. }
  intros _. apply emits_bind; [by apply emits_call|]. intros err'. apply emits_Ok.
Qed.

Lemma head_events_times (seg : list event) :
  Forall head_event seg →
  min_times seg = [] ∧ max_times seg = [] ∧ write_requests seg = [].
Proof.
  induction 1 as [|e seg He _ IH]; [done|].
  destruct IH as (? & ? & ?). by destruct e.
Qed.


(** ** CreateBlock *)

(** C7, as amended. In every run of [CreateBlock], with any collaborators:
    when the head reports [M] as its greatest timestamp and [M] is less than
    the greatest [int64], the compactor is asked once, for the directory
    given, from the least time [m] of the head up to [M + 1] exactly; the
    half-open interval from [m] up to [M + 1] then contains [M]. *)
Theorem CreateBlock_requests_max_plus_one (fuel : nat) (dir : string)
    (series : list (option mockSeries)) (w0 : W) (M : Z) :
  let tr := (CreateBlock fuel dir series w0 []).1.2 in
  max_times tr = [M] → in_int M → M < int_max →
  ∃ m, min_times tr = [m] ∧ write_requests tr = [(dir, m, M + 1)] ∧
       (m ≤ M → m ≤ M < M + 1).
Proof.
  unfold CreateBlock, mbind, M_bind.
  destruct (createHead_emits fuel series w0 []) as (seg & Hseg & Hhead).
  apply head_events_times in Hhead as (Hmin & Hmax & Hwr).
  destruct (createHead fuel series w0 []) as [[w1 tr1] res1].
  simpl in Hseg. subst tr1.
  unfold min_times, max_times, write_requests in *.
  destruct res1 as [[]| | |]; simpl; [|by rewrite Hmax..].
  unfold call.
  destruct (tsdb_NewLeveledCompactor w1) as [w2 [e|]]; simpl;
    [rewrite omap_app, Hmax; done|].
  destruct (os_MkdirAll dir w2) as [w3 [e|]]; simpl;
    [rewrite !omap_app, Hmax; done|].
  destruct (compactor_Write _ _ _ w3) as [w4 [ulid err]] eqn:Hw. simpl.
  destruct err as [e|]; simpl; rewrite <-!app_assoc; simpl;
    rewrite !omap_app, ?Hmin, ?Hmax, ?Hwr; simpl;
    intros [= <-] HM Hlt; exists (head_MinTime w3);
    rewrite wrap64_id by (unfold in_int, int_min, int_max in *; lia);
    (split_and!; [done|done|lia]).
Qed.

End Events.

Lemma CreateBlock_requests_max_plus_one_witness :
  ∃ m, min_times (CreateBlock (H := stub_collaborators true) 5 "d"
                    [Some (newSeries ∅ five_samples)] (mk_stub [] []) []).1.2 = [m] ∧
       write_requests (CreateBlock (H := stub_collaborators true) 5 "d"
                    [Some (newSeries ∅ five_samples)] (mk_stub [] []) []).1.2
         = [("d", m, 4 + 1)] ∧
       (m ≤ 4 → m ≤ 4 < 4 + 1).
Proof.
  apply (CreateBlock_requests_max_plus_one (H := stub_collaborators true) 5 "d"
           [Some (newSeries ∅ five_samples)] (mk_stub [] []) 4);
    [vm_compute; reflexivity|by vm_compute|by vm_compute].
Defined.

(** C7, a counterexample. One series with one sample at the greatest [int64]
    timestamp: the head reports this timestamp as [M] and the compactor is
    asked for a block up to the least [int64], as [M + 1] wraps around. *)
Lemma CreateBlock_upper_bound_wraps :
  ¬ requests_max_plus_one
      (CreateBlock (H := stub_collaborators true) 1 "d"
         [Some (newSeries ∅ [mk_sample int_max 0.5])] (mk_stub [] []) []).1.2.
Proof.
  intros Hreq. destruct (Hreq int_max) as (dir & m & Hw); [vm_compute; reflexivity|].
  vm_compute in Hw. by simplify_eq.
Qed.

(** ** createHead *)

Lemma Next_at (l : list sample) (p : nat) :
  len l ≤ int_max → (p ≤ length l)%nat →
  Next (mk_iter l (Z.of_nat p - 1)) = (mk_iter l (Z.of_nat p), Z.of_nat p <? len l).
Proof.
  unfold len, int_max. intros Hl Hp. unfold Next. simpl.
  replace (Z.of_nat p - 1 + 1) with (Z.of_nat p) by lia.
  by rewrite wrap64_id by (unfold in_int, int_min, int_max; lia).
Qed.

Section Appends.
Context {W : Type} `{Collaborators W}.

Lemma append_loop_run (m : mockSeries) (fuel p : nat) (ref : Z) (w : W) (tr : list event) :
  full_append_succeeds W →
  len (series_samples m) ≤ int_max →
  (p ≤ length (series_samples m))%nat →
  (length (series_samples m) - p ≤ fuel)%nat →
  ∃ w' seg,
    append_loop fuel m (mk_iter (series_samples m) (Z.of_nat p - 1)) ref w tr
      = (w', tr ++ seg, Done ()) ∧
    Forall append_event seg ∧
    appends seg = (λ s, (T s, V s)) <$> drop p (series_samples m) ∧
    (fast_fails_for m →
     full_appends seg = (λ s, (Labels m, T s, V s)) <$> drop p (series_samples m)).
Proof.
  intros Hadd Hlen. revert p ref w tr.
  induction fuel as [|fuel IH]; intros p ref w tr Hp Hfuel; cbn [append_loop];
    rewrite Next_at by done.
  - rewrite (proj2 (Z.ltb_ge _ _)) by (unfold len; lia).
    exists w, []. rewrite app_nil_r, drop_ge by lia. done.
  - destruct (Z.of_nat p <? len (series_samples m)) eqn:Hlt;
      [apply Z.ltb_lt in Hlt; unfold len in Hlt
      |apply Z.ltb_ge in Hlt; unfold len in Hlt;
       exists w, []; rewrite app_nil_r, drop_ge by lia; done].
    destruct (lookup_lt_is_Some_2 (series_samples m) p) as [s Hs]; [lia|].
    rewrite (drop_S _ _ _ Hs).
    unfold At. cbn [lst idx]. rewrite (index_lookup _ _ _ Hs).
    unfold mbind at 1, M_bind at 1. unfold lift at 1. cbn [mbind Result_bind].
    replace (Z.of_nat p) with (Z.of_nat (S p) - 1) by lia.
    assert (s ∈ series_samples m) as Hin by (by eapply list_elem_of_lookup_2).
    rewrite !fmap_cons.
    assert (∀ w1 tr1, ∃ w' seg,
              (call (app_Add (Labels m) (T s) (V s))
                    (λ a : Z * option error, EvAdd (Labels m) (T s) (V s) a.1 a.2)
               ≫= λ '(ref0, err),
                    Ok err ≫= λ _ : (),
                      append_loop fuel m
                        {| lst := series_samples m; idx := Z.of_nat (S p) - 1 |} ref0)
                w1 tr1 = (w', tr1 ++ seg, Done ()) ∧
              Forall append_event seg ∧
              appends seg
                = (T s, V s) :: ((λ s0, (T s0, V s0)) <$> drop (S p) (series_samples m)) ∧
              (fast_fails_for m →
               full_appends seg
                 = (Labels m, T s, V s)
                     :: ((λ s0, (Labels m, T s0, V s0)) <$> drop (S p) (series_samples m))))
      as Hfull.
    { intros w1 tr1. unfold mbind, M_bind, call.
      pose proof (Hadd (Labels m) (T s) (V s) w1) as Herr.
      destruct (app_Add (Labels m) (T s) (V s) w1) as [w2 [ref' err']].
      simpl in Herr. subst err'. simpl.
      destruct (IH (S p) ref' w2 (tr1 ++ [EvAdd (Labels m) (T s) (V s) ref' None]))
        as (w' & seg & -> & Hev & Happ & Hfullapp); [lia..|].
      exists w', (EvAdd (Labels m) (T s) (V s) ref' None :: seg).
      split; [by rewrite <-app_assoc|]. split; [by constructor|].
      split; [simpl; by rewrite <-Happ|].
      intros Hff. simpl. by rewrite <-(Hfullapp Hff). }
    destruct (negb (ref =? 0)).
    + unfold mbind at 1, M_bind at 1. unfold mbind at 1, M_bind at 1. unfold call at 1.
      pose proof (λ Hff : fast_fails_for m, Hff ref w s Hin) as Hfast.
      destruct (app_AddFast ref (T s) (V s) w) as [w1 err]. simpl in Hfast.
      cbn [mret M_ret].
      destruct err as [e|].
      * rewrite bool_decide_eq_false_2 by done.
        destruct (Hfull w1 (tr ++ [EvAddFast ref (T s) (V s) (Some e)]))
          as (w' & seg & -> & Hev & Happ & Hfullapp).
        exists w', (EvAddFast ref (T s) (V s) (Some e) :: seg).
        split; [by rewrite <-app_assoc|]. split; [by constructor|]. done.
      * rewrite bool_decide_eq_true_2 by done.
        destruct (IH (S p) ref w1 (tr ++ [EvAddFast ref (T s) (V s) None]))
          as (w' & seg & -> & Hev & Happ & Hfullapp); [lia..|].
        exists w', (EvAddFast ref (T s) (V s) None :: seg).
        split; [by rewrite <-app_assoc|]. split; [by constructor|].
        split; [simpl; by rewrite <-Happ|].
        intros Hff. by destruct (Hfast Hff).
    + unfold mbind at 1, M_bind at 1. cbn [mret M_ret]. apply Hfull.
Qed.

Lemma range_series_run (fuel : nat) (fixtures : list mockSeries) (w : W) (tr : list event) :
  full_append_succeeds W →
  Forall (λ m, len (series_samples m) ≤ int_max) fixtures →
  Forall (λ m, (length (series_samples m) ≤ fuel)%nat) fixtures →
  ∃ w' segs,
    range_series fuel (Some <$> fixtures) w tr = (w', tr ++ concat segs, Done ()) ∧
    Forall2 series_appended fixtures segs.
Proof.
  intros Hadd Hlen Hfuel. revert w tr.
  induction fixtures as [|m fixtures IH]; intros w tr.
  - exists w, []. simpl. by rewrite app_nil_r.
  - apply Forall_cons in Hlen as [Hm Hlen]. apply Forall_cons in Hfuel as [Hf Hfuel].
    rewrite fmap_cons. cbn [range_series]. unfold Iterator.
    unfold mbind at 1, M_bind at 1, lift at 1.
    unfold mbind at 1, M_bind at 1.
    destruct (append_loop_run m fuel 0 0 w tr)
      as (w1 & seg & Hrun & Hev & Happ & Hfullapp); [done|done|lia|lia|].
    change (Z.of_nat 0 - 1) with (-1) in Hrun. unfold newListSeriesIterator.
    rewrite Hrun. unfold mbind at 1, M_bind at 1. cbn [Ok Err mret M_ret].
    destruct (IH Hlen Hfuel w1 (tr ++ seg)) as (w' & segs & -> & Hsegs).
    exists w', (seg :: segs). split; [simpl; by rewrite <-app_assoc|].
    constructor; [|done]. rewrite drop_0 in Happ, Hfullapp. done.
Qed.


(** C5. The full append always succeeds and the head is created. Then
    [createHead] runs to the commit: its events are the creation of the head
    and of the appender, then for each series in turn the events [seg] of its
    loop, then one commit and the closing of the head. Each [seg] holds
    appends only, the appends that succeeded in it are the samples of the
    series, once each and in order, and when the fast append fails for every
    sample of the series, these appends are all made by the full append with
    the labels of the series. The commit is the only one and comes after the
    appends of all series. A Go slice has at most [int_max] elements. *)
Theorem createHead_appends_every_sample_once (fuel : nat) (fixtures : list mockSeries)
    (w0 : W) :
  full_append_succeeds W →
  (tsdb_NewHead w0).2 = None →
  Forall (λ m, len (series_samples m) ≤ int_max) fixtures →
  Forall (λ m, (length (series_samples m) ≤ fuel)%nat) fixtures →
  ∃ w segs err,
    createHead fuel (Some <$> fixtures) w0 [] =
      (w, [EvNewHead None; EvAppender] ++ concat segs ++ [EvCommit err; EvClose],
       match err with None => Done () | Some e => Fatal e end) ∧
    Forall2 series_appended fixtures segs.
Proof.
  intros Hadd Hnew Hlen Hfuel. unfold createHead.
  unfold mbind at 1, M_bind at 1, call at 1.
  destruct (tsdb_NewHead w0) as [w1 err1]. simpl in Hnew. subst err1.
  unfold mbind at 1, M_bind at 1. cbn [Ok mret M_ret].
  unfold defer, mbind, M_bind, call.
  destruct (range_series_run fuel fixtures (head_Appender w1)
              (([] ++ [EvNewHead None]) ++ [EvAppender]) Hadd Hlen Hfuel)
    as (w2 & segs & -> & Hsegs).
  destruct (app_Commit w2) as [w3 err].
  exists (head_Close w3), segs, err. split; [|done].
  destruct err as [e|]; simpl; by rewrite <-!app_assoc.
Qed.

End Appends.

Lemma fast_fails_for_stub (m : mockSeries) :
  fast_fails_for (H := stub_collaborators false) m.
Proof. intros ref w s _. done. Qed.

Lemma createHead_appends_every_sample_once_witness :
  ∃ w segs err,
    createHead (H := stub_collaborators false) 5
               (Some <$> [newSeries ∅ five_samples; newSeries ∅ five_samples])
               (mk_stub [] []) [] =
      (w, [EvNewHead None; EvAppender] ++ concat segs ++ [EvCommit err; EvClose],
       match err with None => Done () | Some e => Fatal e end) ∧
    Forall2 (series_appended (H := stub_collaborators false))
            [newSeries ∅ five_samples; newSeries ∅ five_samples] segs.
Proof.
  apply (createHead_appends_every_sample_once (H := stub_collaborators false) 5
           [newSeries ∅ five_samples; newSeries ∅ five_samples] (mk_stub [] [])).
  - intros l ts x w. reflexivity.
  - reflexivity.
  - repeat constructor; by vm_compute.
  - repeat constructor; simpl; lia.
Defined.

(** The run of the witness, in full: with the fast append forced to fail,
    the ten samples of the two series are appended by the full append, once
    each and in order, and there is one commit. *)
Example createHead_fast_append_fails :
  let tr := (createHead (H := stub_collaborators false) 5
               (Some <$> [newSeries ∅ five_samples; newSeries ∅ five_samples])
               (mk_stub [] []) []).1.2 in
  full_appends tr
    = expected_full_appends (newSeries ∅ five_samples)
        ++ expected_full_appends (newSeries ∅ five_samples) ∧
  appends tr
    = expected_appends (newSeries ∅ five_samples)
        ++ expected_appends (newSeries ∅ five_samples) ∧
  commits tr = [None].
Proof. split_and!; vm_compute; reflexivity. Qed.

(** * Further properties *)

(** ** The iterator at its bounds *)

(** The search ends within [[i, j]] whatever the predicate answers, as long
    as it answers on [[0, n)]. *)
Lemma Search_loop_range (f : Z → Result bool) (n : Z) :
  n ≤ int_max →
  (∀ x, 0 ≤ x < n → ∃ b, f x = Done b) →
  ∀ (fuel : nat) (i j : Z),
    0 ≤ i → j ≤ n → (Z.to_nat (j - i) ≤ fuel)%nat →
    ∃ r, Search_loop fuel i j f = Done r ∧ i ≤ r ≤ Z.max i j.
Proof.
  intros Hn Hf. unfold int_max in Hn.
  induction fuel as [|fuel IH]; intros i j Hi Hjn Hfuel; simpl.
  - rewrite (proj2 (Z.ltb_ge _ _)) by lia. eauto with lia.
  - destruct (i <? j) eqn:Hlt; [|eauto with lia].
    apply Z.ltb_lt in Hlt.
    rewrite Z.mod_small by lia. rewrite Z.shiftr_div_pow2 by lia.
    change (2 ^ 1) with 2.
    assert (i ≤ (i + j) `div` 2 < j) as Hh.
    { split; [apply Z.div_le_lower_bound|apply Z.div_lt_upper_bound]; lia. }
    set (h := (i + j) `div` 2) in *.
    destruct (Hf h) as [b ->]; [lia|]. simpl. destruct b; simpl.
    + destruct (IH i h) as (r & -> & ?); [lia..|]. eauto with lia.
    + rewrite wrap64_id by (unfold in_int, int_min, int_max; lia).
      destruct (IH (h + 1) j) as (r & -> & ?); [lia..|]. eauto with lia.
Qed.

(** X1. [Seek] never panics. From every position that an iterator can have,
    from [-1] up to [int_max], and on every list, sorted or not, it ends
    with a position between [0] and the number of samples from the old
    position on, and the boolean returned tells whether [At] succeeds at the
    new position. *)
Theorem Seek_stays_in_bounds (fuel : nat) (ts : Z) (it : listSeriesIterator) :
  -1 ≤ idx it ≤ int_max → len (lst it) ≤ int_max →
  (length (lst it) - Z.to_nat (idx it) ≤ fuel)%nat →
  ∃ r, Seek fuel ts it = Done (mk_iter (lst it) r, r <? len (lst it)) ∧
       0 ≤ r ≤ Z.max 0 (len (lst it) - Z.max 0 (idx it)) ∧
       ((r <? len (lst it)) = true ↔ ∃ p, At (mk_iter (lst it) r) = Done p).
Proof.
  destruct it as [l i]; simpl. intros Hi Hlen Hfuel.
  unfold Seek; simpl.
  set (q := if i =? -1 then 0 else i).
  assert (Z.max 0 i = q ∧ Z.to_nat i = Z.to_nat q ∧ 0 ≤ q ≤ int_max) as (Hq & Hqi & Hq0).
  { unfold q, int_max in *.
    destruct (i =? -1) eqn:E; [apply Z.eqb_eq in E|apply Z.eqb_neq in E]; lia. }
  assert (lst (if i =? -1 then mk_iter l 0 else mk_iter l i) = l) as -> by by destruct (i =? -1).
  assert (idx (if i =? -1 then mk_iter l 0 else mk_iter l i) = q) as -> by by destruct (i =? -1).
  rewrite Hq. rewrite Hqi in Hfuel.
  clearbody q. clear Hi Hq Hqi i.
  unfold int_max, len in *.
  rewrite wrap64_id by (unfold in_int, int_min, int_max; lia).
  unfold Search.
  destruct (Search_loop_range
              (λ i : Z, s ← index l (wrap64 (i + q)); Done (T s >=? ts))
              (Z.of_nat (length l) - q)) with (fuel := fuel) (i := 0)
              (j := Z.of_nat (length l) - q) as (r & -> & Hr);
    [unfold int_max; lia| |lia..|].
  - intros x Hx. rewrite wrap64_id by (unfold in_int, int_min, int_max; lia).
    destruct (lookup_lt_is_Some_2 l (Z.to_nat (x + q))) as [s Hs]; [lia|].
    rewrite <-(Z2Nat.id (x + q)) by lia. rewrite (index_lookup _ _ _ Hs). simpl. eauto.
  - exists r. split; [done|]. split; [lia|].
    unfold At, index, len. simpl. rewrite Z.ltb_lt. split.
    + intros Hlt. rewrite bool_decide_eq_true_2 by lia.
      destruct (lookup_lt_is_Some_2 l (Z.to_nat r)) as [s ->]; [lia|]. simpl. eauto.
    + intros [p Hp]. case_bool_decide; [lia|done].
Qed.

Lemma Seek_stays_in_bounds_witness :
  ∃ r, Seek 3 9 (mk_iter five_samples 2) = Done (mk_iter five_samples r, r <? len five_samples) ∧
       0 ≤ r ≤ Z.max 0 (len five_samples - Z.max 0 2) ∧
       ((r <? len five_samples) = true ↔ ∃ p, At (mk_iter five_samples r) = Done p).
Proof.
  apply (Seek_stays_in_bounds 3 9 (mk_iter five_samples 2));
    [by vm_compute|by vm_compute|simpl; lia].
Defined.

(** X2. On a list sorted by time from the cursor on, [Seek] finds the first
    sample of the window with a timestamp of at least [ts]: it is at the
    position [p + r], with [p] the old position (0 for a fresh iterator) and
    [r] its offset in the window. The position that [Seek] leaves is the
    offset [r] itself, and the boolean compares [r] with the length. *)
Theorem Seek_sets_window_offset (fuel : nat) (ts : Z) (it : listSeriesIterator) :
  -1 ≤ idx it ≤ len (lst it) → len (lst it) ≤ int_max →
  sorted_by_time (drop (Z.to_nat (idx it)) (lst it)) →
  (length (lst it) - Z.to_nat (idx it) ≤ fuel)%nat →
  ∃ r : nat,
    Seek fuel ts it
      = Done (mk_iter (lst it) (Z.of_nat r), Z.of_nat r <? len (lst it)) ∧
    (Z.to_nat (idx it) + r ≤ length (lst it))%nat ∧
    (∀ i s, (i < r)%nat → lst it !! (Z.to_nat (idx it) + i)%nat = Some s → T s < ts) ∧
    (∀ s, lst it !! (Z.to_nat (idx it) + r)%nat = Some s → ts ≤ T s).
Proof.
  intros Hi Hlen Hsorted Hfuel.
  exists (lower_bound ts (drop (Z.to_nat (idx it)) (lst it))).
  split; [by apply Seek_offset|]. split_and!.
  - pose proof (lower_bound_le ts (drop (Z.to_nat (idx it)) (lst it))) as Hle.
    rewrite length_drop in Hle. unfold len in Hi. lia.
  - intros i s Hlt Hs. rewrite <-lookup_drop in Hs. by eapply lower_bound_before.
  - intros s Hs. rewrite <-lookup_drop in Hs. by eapply lower_bound_at.
Qed.

Lemma Seek_sets_window_offset_witness :
  ∃ r : nat,
    Seek 3 4 (mk_iter five_samples 2)
      = Done (mk_iter five_samples (Z.of_nat r), Z.of_nat r <? len five_samples) ∧
    (Z.to_nat 2 + r ≤ length five_samples)%nat ∧
    (∀ i s, (i < r)%nat → five_samples !! (Z.to_nat 2 + i)%nat = Some s → T s < 4) ∧
    (∀ s, five_samples !! (Z.to_nat 2 + r)%nat = Some s → 4 ≤ T s).
Proof.
  apply (Seek_sets_window_offset 3 4 (mk_iter five_samples 2));
    [by vm_compute|by vm_compute| |simpl; lia].
  intros [|[|[|i]]] j a b; simpl; intros Ha Hb Hij;
    destruct j as [|[|[|j]]]; simplify_eq/=; lia.
Defined.

(** X3. On a fresh iterator over a list sorted by time, [Seek] lands on the
    first sample with a timestamp of at least [ts]: all samples before the
    new position are earlier than [ts], the sample at it is not, and [Seek]
    returns true exactly when the list has a sample with a timestamp of at
    least [ts]. *)
Theorem Seek_fresh_lands_on_first (fuel : nat) (ts : Z) (l : list sample) :
  len l ≤ int_max → sorted_by_time l → (length l ≤ fuel)%nat →
  ∃ r : nat,
    Seek fuel ts (newListSeriesIterator l)
      = Done (mk_iter l (Z.of_nat r), Z.of_nat r <? len l) ∧
    (∀ i s, (i < r)%nat → l !! i = Some s → T s < ts) ∧
    (∀ s, l !! r = Some s → ts ≤ T s) ∧
    ((Z.of_nat r <? len l) = true ↔ ∃ s, s ∈ l ∧ ts ≤ T s).
Proof.
  intros Hlen Hsorted Hfuel. exists (lower_bound ts l).
  split; [by apply Seek_from_start|].
  pose proof (lower_bound_le ts l) as Hle.
  pose proof (lower_bound_before ts l) as Hbefore.
  pose proof (lower_bound_at ts l) as Hat.
  split_and!; [done|done|]. rewrite Z.ltb_lt. unfold len. split.
  - intros Hlt. destruct (lookup_lt_is_Some_2 l (lower_bound ts l)) as [s Hs]; [lia|].
    exists s. split; [by eapply list_elem_of_lookup_2|by apply Hat].
  - intros (s & [i Hi]%list_elem_of_lookup & Hs).
    destruct (decide (lower_bound ts l < length l)%nat) as [|Hge]; [lia|].
    assert (i < lower_bound ts l)%nat as Hlt.
    { pose proof (lookup_lt_Some _ _ _ Hi). lia. }
    pose proof (Hbefore _ _ Hlt Hi). lia.
Qed.

Lemma Seek_fresh_lands_on_first_witness :
  ∃ r : nat,
    Seek 5 3 (newListSeriesIterator five_samples)
      = Done (mk_iter five_samples (Z.of_nat r), Z.of_nat r <? len five_samples) ∧
    (∀ i s, (i < r)%nat → five_samples !! i = Some s → T s < 3) ∧
    (∀ s, five_samples !! r = Some s → 3 ≤ T s) ∧
    ((Z.of_nat r <? len five_samples) = true ↔ ∃ s, s ∈ five_samples ∧ 3 ≤ T s).
Proof.
  apply (Seek_fresh_lands_on_first 5 3 five_samples); [by vm_compute| |simpl; lia].
  intros [|[|[|[|[|i]]]]] j a b; simpl; intros Ha Hb Hij;
    destruct j as [|[|[|[|[|j]]]]]; simplify_eq/=; lia.
Defined.

(** X4. A [Seek] on an iterator that is past its last sample puts the cursor
    on position 0, whatever the target, and returns true when the list is not
    empty. *)
Theorem Seek_on_exhausted_iterator (fuel : nat) (ts : Z) (it : listSeriesIterator) :
  len (lst it) ≤ idx it ≤ int_max →
  Seek fuel ts it = Done (mk_iter (lst it) 0, 0 <? len (lst it)).
Proof.
  destruct it as [l i]; simpl. intros Hi.
  pose proof (len_nonneg l). unfold int_max in Hi.
  unfold Seek. simpl. rewrite (proj2 (Z.eqb_neq i (-1))) by lia. simpl.
  rewrite wrap64_id by (unfold in_int, int_min, int_max; lia).
  unfold Search.
  assert ((0 <? len l - i) = false) as Hlt by (apply Z.ltb_ge; lia).
  destruct fuel; simpl; by rewrite Hlt.
Qed.

Lemma Seek_on_exhausted_iterator_witness :
  Seek 0 9 (after_nexts 6 (newListSeriesIterator five_samples))
  = Done (mk_iter five_samples 0, true).
Proof.
  apply (Seek_on_exhausted_iterator 0 9 (after_nexts 6 (newListSeriesIterator five_samples))).
  by vm_compute.
Defined.

(** X5. [At] panics on a fresh iterator, and once [Next] has been called as
    many times as there are samples, every further call of [Next] returns
    false and leaves a position where [At] panics (as long as the number of
    calls stays within [int]). *)
Theorem Next_stays_false (n : nat) (l : list sample) :
  (length l ≤ n)%nat → Z.of_nat n ≤ int_max →
  At (newListSeriesIterator l) = Panic "index out of range" ∧
  (Next (after_nexts n (newListSeriesIterator l))).2 = false ∧
  At (Next (after_nexts n (newListSeriesIterator l))).1 = Panic "index out of range".
Proof.
  intros Hn Hmax. unfold int_max in Hmax. split; [done|].
  unfold Next, At. simpl.
  rewrite after_nexts_lst, after_nexts_idx by (unfold int_max; lia). simpl.
  replace (Z.of_nat n - 1 + 1) with (Z.of_nat n) by lia.
  rewrite wrap64_id by (unfold in_int, int_min, int_max; lia).
  split; [apply Z.ltb_ge; unfold len; lia|].
  unfold index. by rewrite bool_decide_eq_false_2 by (unfold len; lia).
Qed.

Lemma Next_stays_false_witness :
  At (newListSeriesIterator five_samples) = Panic "index out of range" ∧
  (Next (after_nexts 7 (newListSeriesIterator five_samples))).2 = false ∧
  At (Next (after_nexts 7 (newListSeriesIterator five_samples))).1
    = Panic "index out of range".
Proof.
  apply (Next_stays_false 7 five_samples); [simpl; lia|by vm_compute].
Defined.

(** ** GenSeries at its bounds *)






(** X7. A negative number of series, with a number of labels other than 0,
    makes [GenSeries] panic on the allocation of the result. *)
Theorem GenSeries_negative_totalSeries {Rand : Type} (Float64 : Rand → float * Rand)
    (fuel : nat) (n k a b : Z) (r : Rand) :
  n < 0 → k ≠ 0 →
  GenSeries Float64 fuel n k a b r = Panic "makeslice: len out of range".
Proof.
  intros Hn Hk. unfold GenSeries, make_slice.
  rewrite (proj2 (Z.eqb_neq n 0)), (proj2 (Z.eqb_neq k 0)) by lia. simpl.
  by rewrite (proj2 (Z.ltb_lt n 0)) by lia.
Qed.

Lemma GenSeries_negative_totalSeries_witness :
  GenSeries draws 0 (-2) 1 0 5 [] = Panic "makeslice: len out of range".
Proof. apply GenSeries_negative_totalSeries; lia. Defined.

Lemma label_loop_at_most_one (fuel : nat) (k j i : Z) :
  k ≤ 1 →
  label_loop fuel k j (<[defaultLabelName := Itoa i]> ∅)
  = Done (<[defaultLabelName := Itoa i]> ∅).
Proof.
  intros Hk.
  assert ((Z.of_nat (size (<[defaultLabelName:=Itoa i]> (∅ : gmap string string))) <? k)
          = false) as Hlt.
  { apply Z.ltb_ge. rewrite map_size_insert_None, map_size_empty by apply lookup_empty. lia. }
  destruct fuel; simpl; by rewrite Hlt.
Qed.

Lemma series_loop_at_most_one_label {Rand : Type} (Float64 : Rand → float * Rand)
    (fuel : nat) (i n k a b : Z)
    (series : list (option mockSeries)) (r : Rand) :
  k ≤ 1 →
  series_loop Float64 fuel i n k a b series r
  = series_loop Float64 fuel i n 1 a b series r.
Proof.
  intros Hk. revert i series r.
  induction fuel as [|fuel IH]; intros i series r; [done|].
  cbn [series_loop]. destruct (i <? n); [|done].
  assert (gen_one Float64 (S fuel) i k a b r = gen_one Float64 (S fuel) i 1 a b r) as ->.
  { unfold gen_one. by rewrite !label_loop_at_most_one by lia. }
  destruct (gen_one Float64 (S fuel) i 1 a b r) as [[m r1]| | |]; simpl; try done.
  destruct (store series i m) as [series'| | |]; simpl; try done.
Qed.

(** X8. A negative number of labels is taken as one label: the fixtures are
    those of [labelCount = 1], with the base label alone. *)
Theorem GenSeries_negative_labelCount {Rand : Type} (Float64 : Rand → float * Rand)
    (fuel : nat) (n k a b : Z) (r : Rand) :
  k < 0 →
  GenSeries Float64 fuel n k a b r = GenSeries Float64 fuel n 1 a b r.
Proof.
  intros Hk. unfold GenSeries.
  rewrite (proj2 (Z.eqb_neq k 0)) by lia. change (1 =? 0) with false.
  destruct (n =? 0); simpl; [done|].
  destruct (make_slice n) as [series| | |]; simpl; try done.
  apply series_loop_at_most_one_label. lia.
Qed.

Lemma GenSeries_negative_labelCount_witness :
  GenSeries draws 4 2 (-3) 0 1 [0.5; 0.25]%float
  = GenSeries draws 4 2 1 0 1 [0.5; 0.25]%float.
Proof. apply GenSeries_negative_labelCount. lia. Defined.



(** ** The values drawn *)






(** ** Seeking in a generated fixture *)






(** ** The runs of createHead *)

Lemma loop_shape_refs (l : list Label) (seg : list event) (res : Result unit) :
  ∀ cur pending, loop_shape l cur pending seg res → refs_ok cur seg.
Proof.
  induction seg as [|e seg IH]; intros cur pending; [done|].
  destruct e as [| | |ref ts x err|l' ts x ref err| | | | | |]; simpl; try done.
  - intros (_ & -> & Hcur & Hseg). eauto.
  - intros (_ & _ & Hseg). destruct err as [e|]; [|eauto].
    destruct Hseg as [-> _]. done.
Qed.

Lemma loop_shape_events (l : list Label) (seg : list event) (res : Result unit) :
  ∀ cur pending, loop_shape l cur pending seg res → Forall append_event seg.
Proof.
  induction seg as [|e seg IH]; intros cur pending; [done|].
  destruct e as [| | |ref ts x err|l' ts x ref err| | | | | |]; simpl; try done.
  - intros (_ & _ & _ & Hseg). constructor; [done|eauto].
  - intros (_ & _ & Hseg). constructor; [done|]. destruct err as [e|]; [|eauto].
    destruct Hseg as [-> _]. done.
Qed.

Lemma loop_shape_fail (l : list Label) (seg : list event) (res : Result unit) :
  ∀ cur pending, loop_shape l cur pending seg res → fail_shape seg res.
Proof.
  induction seg as [|e seg IH]; intros cur pending.
  - intros [_ Hres]. by destruct res.
  - destruct e as [| | |ref ts x err|l' ts x ref err| | | | | |]; simpl; try done.
    + intros (_ & _ & _ & Hseg). apply IH in Hseg. unfold fail_shape in *.
      destruct res as [[]|msg|e|]; try done.
      destruct Hseg as (pre & l0 & ts0 & x0 & ref0 & -> & Hpre).
      by exists (EvAddFast ref ts x err :: pre), l0, ts0, x0, ref0.
    + intros (_ & _ & Hseg). destruct err as [e|].
      * destruct Hseg as [-> ->]. by exists [], l', ts, x, ref.
      * apply IH in Hseg. unfold fail_shape in *.
        destruct res as [[]|msg|e|]; try done.
        destruct Hseg as (pre & l0 & ts0 & x0 & ref0 & -> & Hpre).
        by exists (EvAdd l' ts x ref None :: pre), l0, ts0, x0, ref0.
Qed.

Lemma At_Done_or_Panic (it : listSeriesIterator) :
  (∃ p, At it = Done p) ∨ (∃ msg, At it = Panic msg).
Proof.
  unfold At, index. case_bool_decide; [|eauto].
  destruct (lst it !! Z.to_nat (idx it)); simpl; eauto.
Qed.

Section Runs.
Context {W : Type} `{Collaborators W}.

Lemma append_loop_shape (fuel : nat) (s : mockSeries) (it : listSeriesIterator)
    (ref : Z) (w : W) (tr : list event) (w' : W) (tr' : list event) (res : Result unit) :
  append_loop fuel s it ref w tr = (w', tr', res) →
  ∃ seg, tr' = tr ++ seg ∧ loop_shape (Labels s) ref None seg res.
Proof.
  revert it ref w tr w' tr' res.
  induction fuel as [|fuel IH]; intros it ref w tr w' tr' res;
    cbn [append_loop]; unfold Next; lazy beta iota zeta; cbn [lst idx];
    unfold mbind, M_bind, lift, call, Ok, mret, M_ret.
  - destruct (wrap64 (idx it + 1) <? len (lst it)); intros [= <- <- <-];
      exists []; by rewrite app_nil_r.
  - destruct (wrap64 (idx it + 1) <? len (lst it));
      [|intros [= <- <- <-]; exists []; by rewrite app_nil_r].
    set (it' := mk_iter (lst it) (wrap64 (idx it + 1))).
    destruct (At_Done_or_Panic it') as [[[ts x] ->]|[msg ->]];
      [|intros [= <- <- <-]; exists []; by rewrite app_nil_r].
    assert (∀ w1 tr1 pending,
              match pending with None => ref = 0 | Some p => p = (ts, x) end →
              (let '(w2, a) := app_Add (Labels s) ts x w1 in
               let '(ref0, err) := a in
               match err with
               | None => append_loop fuel s it' ref0 w2
                           (tr1 ++ [EvAdd (Labels s) ts x a.1 a.2])
               | Some e => (w2, tr1 ++ [EvAdd (Labels s) ts x a.1 a.2], Fatal e)
               end) = (w', tr', res) →
              ∃ seg, tr' = tr1 ++ seg ∧ loop_shape (Labels s) ref pending seg res)
      as Hfull.
    { intros w1 tr1 pending Hpending.
      destruct (app_Add (Labels s) ts x w1) as [w2 [ref' [e|]]]; cbn [fst snd].
      - intros [= <- <- <-]. exists [EvAdd (Labels s) ts x ref' (Some e)].
        cbn [loop_shape]. split_and!; done.
      - intros (seg & -> & Hshape)%IH.
        exists (EvAdd (Labels s) ts x ref' None :: seg).
        split; [by rewrite <-app_assoc|]. cbn [loop_shape]. split_and!; done. }
    destruct (negb (ref =? 0)) eqn:Href.
    + assert (ref ≠ 0) as Hne by (intros ->; done).
      destruct (app_AddFast ref ts x w) as [w1 [e|]].
      * rewrite bool_decide_eq_false_2 by done. intros Hrun.
        destruct (Hfull w1 (tr ++ [EvAddFast ref ts x (Some e)]) (Some (ts, x)) eq_refl)
          as (seg & -> & Hshape).
        { revert Hrun. destruct (app_Add (Labels s) ts x w1) as [w2 [ref' [e'|]]]; done. }
        exists (EvAddFast ref ts x (Some e) :: seg).
        split; [by rewrite <-app_assoc|]. cbn [loop_shape]. split_and!; done.
      * rewrite bool_decide_eq_true_2 by done. intros (seg & -> & Hshape)%IH.
        exists (EvAddFast ref ts x None :: seg).
        split; [by rewrite <-app_assoc|]. cbn [loop_shape]. split_and!; done.
    + assert (ref = 0) as Hz.
      { apply negb_false_iff, Z.eqb_eq in Href. done. }
      intros Hrun. apply (Hfull w tr None Hz).
      revert Hrun. destruct (app_Add (Labels s) ts x w) as [w2 [ref' [e'|]]]; done.
Qed.

Lemma failed_adds_app (tr1 tr2 : list event) :
  failed_adds (tr1 ++ tr2) = failed_adds tr1 ++ failed_adds tr2.
Proof. apply omap_app. Qed.

Lemma range_series_shape (fuel : nat) (series : list (option mockSeries))
    (w : W) (tr : list event) (w' : W) (tr' : list event) (res : Result unit) :
  range_series fuel series w tr = (w', tr', res) →
  ∃ segs, tr' = tr ++ concat segs ∧ (length segs ≤ length series)%nat ∧
          Forall (refs_ok 0) segs ∧ Forall append_event (concat segs) ∧
          fail_shape (concat segs) res.
Proof.
  revert w tr. induction series as [|s series IH]; intros w tr; cbn [range_series];
    unfold mbind, M_bind, lift, Ok, Err, mret, M_ret.
  - intros [= <- <- <-]. exists []. by rewrite app_nil_r.
  - destruct s as [m|];
      [|intros [= <- <- <-]; exists []; rewrite app_nil_r; split_and!; try done; simpl; lia].
    destruct (append_loop fuel m (Iterator m) 0 w tr) as [[w1 tr1] res1] eqn:E.
    apply append_loop_shape in E as (seg & -> & Hshape).
    pose proof (loop_shape_refs _ _ _ _ _ Hshape) as Hrefs.
    pose proof (loop_shape_events _ _ _ _ _ Hshape) as Hev.
    pose proof (loop_shape_fail _ _ _ _ _ Hshape) as Hfail.
    destruct res1 as [[]|msg|e|].
    + intros (segs & -> & Hlen & Hsegs & Hevs & Hfails)%IH.
      exists (seg :: segs). cbn [concat length].
      split; [by rewrite <-app_assoc|]. split; [lia|]. split; [by constructor|].
      split; [by apply Forall_app|].
      unfold fail_shape in *. destruct res as [[]|msg|e|];
        try (by rewrite failed_adds_app, Hfail, Hfails).
      destruct Hfails as (pre & l & ts & x & ref & -> & Hpre).
      exists (seg ++ pre), l, ts, x, ref.
      split; [by rewrite <-app_assoc|]. by rewrite failed_adds_app, Hfail, Hpre.
    + intros [= <- <- <-]. exists [seg]. cbn [concat length]. rewrite !app_nil_r.
      split_and!; try done; [lia|by constructor].
    + intros [= <- <- <-]. exists [seg]. cbn [concat length]. rewrite !app_nil_r.
      split_and!; try done; [lia|by constructor].
    + intros [= <- <- <-]. exists [seg]. cbn [concat length]. rewrite !app_nil_r.
      split_and!; try done; [lia|by constructor].
Qed.

(** Every run of [createHead] is one of [createHead_run]. *)
Lemma createHead_runs (fuel : nat) (series : list (option mockSeries)) (w0 : W) :
  createHead_run (length series)
    (createHead fuel series w0 []).1.2 (createHead fuel series w0 []).2.
Proof.
  destruct (createHead fuel series w0 []) as [[w tr] res] eqn:Hrun. simpl.
  revert Hrun. unfold createHead, defer, mbind, M_bind, call, Ok, lift, mret, M_ret.
  destruct (tsdb_NewHead w0) as [w1 [e|]]; [intros [= <- <- <-]; apply run_no_head|].
  destruct (range_series fuel series _ _) as [[w2 tr2] res2] eqn:E.
  apply range_series_shape in E as (segs & -> & Hlen & Hrefs & Hev & Hfail).
  unfold fail_shape in Hfail.
  assert (∀ t t' r, t = t' → createHead_run (length series) t' r →
                    createHead_run (length series) t r) as Heq
    by (by intros t t' r ->).
  destruct res2 as [[]|msg|e|].
  - destruct (app_Commit w2) as [w3 err].
    destruct err as [e|]; intros [= <- <- <-].
    + eapply Heq; [|by apply (run_commit _ segs (Some e))].
      simpl. rewrite <-?app_assoc. reflexivity.
    + eapply Heq; [|by apply (run_commit _ segs None)].
      simpl. rewrite <-?app_assoc. reflexivity.
  - intros [= <- <- <-].
    eapply Heq; [|by apply (run_panic _ segs msg)].
    simpl. rewrite <-?app_assoc. reflexivity.
  - intros [= <- <- <-].
    destruct Hfail as (pre & l & ts & x & ref & Hsegs & Hpre).
    eapply Heq; [|by eapply (run_failed_add _ segs)].
    simpl. rewrite <-?app_assoc. reflexivity.
  - intros [= <- <- <-]. by apply run_out_of_fuel.
Qed.

Lemma append_events_no_commit (seg : list event) :
  Forall append_event seg → commits seg = [] ∧ write_requests seg = [].
Proof.
  induction 1 as [|e seg He _ IH]; [done|]. destruct IH. by destruct e.
Qed.


(** X13. How [createHead] ends, with any collaborators. It returns normally
    only after one commit that succeeded, made after all appends and followed
    by the closing of the head, and when no full append failed. It ends with
    an error [e] in three ways: the head could not be created, and nothing
    else was asked; the commit failed with [e]; or a full append failed with
    [e], after which the head is closed and nothing is committed. After a
    panic the head is closed and nothing was committed. *)
Theorem createHead_outcome (fuel : nat) (series : list (option mockSeries)) (w0 : W) :
  let tr := (createHead fuel series w0 []).1.2 in
  match (createHead fuel series w0 []).2 with
  | Done _ =>
      ∃ pre, tr = pre ++ [EvCommit None; EvClose] ∧
             commits pre = [] ∧ failed_adds pre = []
  | Fatal e =>
      tr = [EvNewHead (Some e)] ∨
      (∃ pre, tr = pre ++ [EvCommit (Some e); EvClose] ∧
              commits pre = [] ∧ failed_adds pre = []) ∨
      (∃ pre l ts x ref, tr = pre ++ [EvAdd l ts x ref (Some e); EvClose] ∧
                         commits pre = [] ∧ failed_adds pre = [])
  | Panic _ =>
      ∃ pre, tr = pre ++ [EvClose] ∧ commits pre = [] ∧ failed_adds pre = []
  | OutOfFuel => commits tr = [] ∧ failed_adds tr = []
  end.
Proof.
  pose proof (createHead_runs fuel series w0) as Hrun.
  destruct (createHead fuel series w0 []) as [[w tr] res]. simpl in *.
  inversion Hrun as [e|segs err Hlen Hrefs Hev Hfail Htr Hres
                    |segs pre l ts x ref e Hlen Hrefs Hev Hsegs Hpre
                    |segs msg Hlen Hrefs Hev Hfail|segs Hlen Hrefs Hev Hfail]; subst.
  - by left.
  - destruct (append_events_no_commit _ Hev) as [Hc _].
    destruct err as [e|]; [right; left|];
      (exists ([EvNewHead None; EvAppender] ++ concat segs);
       split; [by rewrite <-app_assoc|]; split;
       [unfold commits in *; by rewrite omap_app, Hc
       |by rewrite failed_adds_app, Hfail]).
  - right. right. rewrite Hsegs in Hev. apply Forall_app in Hev as [Hev _].
    destruct (append_events_no_commit _ Hev) as [Hc _].
    exists ([EvNewHead None; EvAppender] ++ pre), l, ts, x, ref.
    split; [by rewrite Hsegs, <-!app_assoc|]. split.
    + unfold commits in *. by rewrite omap_app, Hc.
    + by rewrite failed_adds_app, Hpre.
  - destruct (append_events_no_commit _ Hev) as [Hc _].
    exists ([EvNewHead None; EvAppender] ++ concat segs).
    split; [by rewrite <-app_assoc|]. split.
    + unfold commits in *. by rewrite omap_app, Hc.
    + by rewrite failed_adds_app, Hfail.
  - destruct (append_events_no_commit _ Hev) as [Hc _]. split.
    + unfold commits in *. by rewrite omap_app, Hc.
    + by rewrite failed_adds_app, Hfail.
Qed.

(** X14. [CreateBlock] asks the compactor for a block only after
    [createHead] has committed without error and has closed the head; the
    directory is made just before. The request is for the directory given,
    from the least time of the head up to its greatest time plus one in
    [int64]. The call returns the directory joined with the identifier that
    the compactor answers, or ends with the error of the compactor. *)
Theorem CreateBlock_compacts_after_commit (fuel : nat) (dir : string)
    (series : list (option mockSeries)) (w0 : W) :
  let tr := (CreateBlock fuel dir series w0 []).1.2 in
  write_requests tr ≠ [] →
  ∃ pre m M ulid err,
    tr = pre ++ [EvCommit None; EvClose; EvNewLeveledCompactor None;
                 EvMkdirAll dir None; EvMinTime m; EvMaxTime M;
                 EvWrite dir m (wrap64 (M + 1)) ulid err] ∧
    commits pre = [] ∧ failed_adds pre = [] ∧ write_requests pre = [] ∧
    (CreateBlock fuel dir series w0 []).2
      = match err with
        | None => Done (filepath_Join dir ulid)
        | Some e => Fatal e
        end.
Proof.
  unfold CreateBlock, mbind, M_bind.
  pose proof (createHead_runs fuel series w0) as Hrun.
  destruct (createHead_emits fuel series w0 []) as (seg & Hseg & Hhead).
  apply head_events_times in Hhead as (_ & _ & Hwr).
  destruct (createHead fuel series w0 []) as [[w1 tr1] res1].
  simpl in Hseg, Hrun. subst tr1.
  assert (res1 = Done () →
          ∃ segs, [EvNewHead None; EvAppender] ++ concat segs ++ [EvCommit None; EvClose]
                  = seg ∧
                  Forall append_event (concat segs) ∧ failed_adds (concat segs) = [])
    as Hdone.
  { intros ->. inversion Hrun as [|segs err Hlen Hrefs Hev Hfail Htr Hres| | |].
    destruct err as [e|]; [done|]. eauto. }
  clear Hrun. unfold write_requests in *.
  destruct res1 as [[]| | |]; simpl; [|by rewrite Hwr..].
  destruct (Hdone eq_refl) as (segs & Htr & Hev & Hfail).
  destruct (append_events_no_commit _ Hev) as [Hc Hw].
  unfold call.
  destruct (tsdb_NewLeveledCompactor w1) as [w2 [e|]]; simpl;
    [rewrite !omap_app, Hwr; done|].
  destruct (os_MkdirAll dir w2) as [w3 [e|]]; simpl;
    [rewrite !omap_app, Hwr; done|].
  destruct (compactor_Write _ _ _ w3) as [w4 [ulid err]]. simpl. intros _.
  exists ([EvNewHead None; EvAppender] ++ concat segs),
    (head_MinTime w3), (head_MaxTime w3), ulid, err.
  split_and!.
  - rewrite <-Htr. destruct err; simpl; by rewrite <-?app_assoc.
  - unfold commits in *. by rewrite omap_app, Hc.
  - by rewrite failed_adds_app, Hfail.
  - unfold write_requests in Hw. by rewrite omap_app, Hw.
  - by destruct err.
Qed.

End Runs.

Lemma CreateBlock_compacts_after_commit_witness :
  ∃ pre m M ulid err,
    (CreateBlock (H := stub_collaborators true) 5 "d"
       [Some (newSeries ∅ five_samples)] (mk_stub [] []) []).1.2
    = pre ++ [EvCommit None; EvClose; EvNewLeveledCompactor None;
              EvMkdirAll "d" None; EvMinTime m; EvMaxTime M;
              EvWrite "d" m (wrap64 (M + 1)) ulid err] ∧
    commits pre = [] ∧ failed_adds pre = [] ∧ write_requests pre = [] ∧
    (CreateBlock (H := stub_collaborators true) 5 "d"
       [Some (newSeries ∅ five_samples)] (mk_stub [] []) []).2
      = match err with
        | None => Done (filepath_Join (Collaborators := stub_collaborators true) "d" ulid)
        | Some e => Fatal e
        end.
Proof.
  apply (CreateBlock_compacts_after_commit (H := stub_collaborators true) 5 "d"
           [Some (newSeries ∅ five_samples)] (mk_stub [] [])).
  by vm_compute.
Defined.

(** ** The fast path *)

Section Fast_path.
Context {W : Type} `{Collaborators W}.

Lemma append_loop_fast_run (m : mockSeries) (fuel p : nat) (ref : Z) (w : W)
    (tr : list event) :
  full_append_succeeds W → fast_append_succeeds W → full_append_refs_nonzero W →
  len (series_samples m) ≤ int_max →
  (p ≤ length (series_samples m))%nat →
  (length (series_samples m) - p ≤ fuel)%nat →
  ∃ w' seg,
    append_loop fuel m (mk_iter (series_samples m) (Z.of_nat p - 1)) ref w tr
      = (w', tr ++ seg, Done ()) ∧
    appends seg = (λ s, (T s, V s)) <$> drop p (series_samples m) ∧
    full_appends seg
      = if bool_decide (ref = 0)
        then take 1 ((λ s, (Labels m, T s, V s)) <$> drop p (series_samples m))
        else [].
Proof.
  intros Hadd Hfast Hrefs Hlen. revert p ref w tr.
  induction fuel as [|fuel IH]; intros p ref w tr Hp Hfuel; cbn [append_loop];
    rewrite Next_at by done.
  - rewrite (proj2 (Z.ltb_ge _ _)) by (unfold len; lia).
    exists w, []. rewrite app_nil_r, drop_ge by lia. by case_bool_decide.
  - destruct (Z.of_nat p <? len (series_samples m)) eqn:Hlt;
      [apply Z.ltb_lt in Hlt; unfold len in Hlt
      |apply Z.ltb_ge in Hlt; unfold len in Hlt;
       exists w, []; rewrite app_nil_r, drop_ge by lia; by case_bool_decide].
    destruct (lookup_lt_is_Some_2 (series_samples m) p) as [s Hs]; [lia|].
    rewrite (drop_S _ _ _ Hs), !fmap_cons.
    unfold At. cbn [lst idx]. rewrite (index_lookup _ _ _ Hs).
    unfold mbind at 1, M_bind at 1. unfold lift at 1. cbn [mbind Result_bind].
    replace (Z.of_nat p) with (Z.of_nat (S p) - 1) by lia.
    destruct (ref =? 0) eqn:Href; cbn [negb].
    + apply Z.eqb_eq in Href. subst ref.
      unfold mbind, M_bind, call. cbn [mret M_ret].
      pose proof (Hadd (Labels m) (T s) (V s) w) as Herr.
      pose proof (Hrefs (Labels m) (T s) (V s) w) as Hne.
      destruct (app_Add (Labels m) (T s) (V s) w) as [w2 [ref' err']].
      simpl in Herr, Hne. subst err'. simpl.
      destruct (IH (S p) ref' w2 (tr ++ [EvAdd (Labels m) (T s) (V s) ref' None]))
        as (w' & seg & -> & Happ & Hfull); [lia..|].
      rewrite bool_decide_eq_false_2 in Hfull by done.
      exists w', (EvAdd (Labels m) (T s) (V s) ref' None :: seg).
      split; [by rewrite <-app_assoc|]. split; [simpl; by rewrite <-Happ|].
      rewrite ?bool_decide_eq_true_2 by done. simpl. by rewrite Hfull.
    + apply Z.eqb_neq in Href.
      unfold mbind at 1, M_bind at 1. unfold mbind at 1, M_bind at 1. unfold call at 1.
      pose proof (Hfast ref (T s) (V s) w) as Herr.
      destruct (app_AddFast ref (T s) (V s) w) as [w1 err]. simpl in Herr. subst err.
      cbn [mret M_ret]. rewrite bool_decide_eq_true_2 by done.
      destruct (IH (S p) ref w1 (tr ++ [EvAddFast ref (T s) (V s) None]))
        as (w' & seg & -> & Happ & Hfull); [lia..|].
      rewrite bool_decide_eq_false_2 in Hfull by done.
      exists w', (EvAddFast ref (T s) (V s) None :: seg).
      split; [by rewrite <-app_assoc|]. split; [simpl; by rewrite <-Happ|].
      by rewrite bool_decide_eq_false_2 by done.
Qed.

Lemma range_series_fast_run (fuel : nat) (fixtures : list mockSeries) (w : W)
    (tr : list event) :
  full_append_succeeds W → fast_append_succeeds W → full_append_refs_nonzero W →
  Forall (λ m, len (series_samples m) ≤ int_max) fixtures →
  Forall (λ m, (length (series_samples m) ≤ fuel)%nat) fixtures →
  ∃ w' segs,
    range_series fuel (Some <$> fixtures) w tr = (w', tr ++ concat segs, Done ()) ∧
    Forall2 series_appended_fast fixtures segs.
Proof.
  intros Hadd Hfast Hrefs Hlen Hfuel. revert w tr.
  induction fixtures as [|m fixtures IH]; intros w tr.
  - exists w, []. simpl. by rewrite app_nil_r.
  - apply Forall_cons in Hlen as [Hm Hlen]. apply Forall_cons in Hfuel as [Hf Hfuel].
    rewrite fmap_cons. cbn [range_series]. unfold Iterator.
    unfold mbind at 1, M_bind at 1, lift at 1.
    unfold mbind at 1, M_bind at 1.
    destruct (append_loop_fast_run m fuel 0 0 w tr)
      as (w1 & seg & Hrun & Happ & Hfull); [done..|lia|lia|].
    change (Z.of_nat 0 - 1) with (-1) in Hrun. unfold newListSeriesIterator.
    rewrite Hrun. unfold mbind at 1, M_bind at 1. cbn [Ok Err mret M_ret].
    destruct (IH Hlen Hfuel w1 (tr ++ seg)) as (w' & segs & -> & Hsegs).
    exists w', (seg :: segs). split; [simpl; by rewrite <-app_assoc|].
    constructor; [|done]. rewrite drop_0 in Happ, Hfull.
    rewrite bool_decide_eq_true_2 in Hfull by done. done.
Qed.

(** X15. The fast path. With collaborators whose appends always succeed and
    whose full append returns references other than 0, [createHead] makes one
    full append for each series that has samples, for its first sample, and
    appends all other samples by the fast append: every sample is appended
    once, in order, and the session is committed once, after all series. *)
Theorem createHead_fast_path (fuel : nat) (fixtures : list mockSeries) (w0 : W) :
  full_append_succeeds W → fast_append_succeeds W → full_append_refs_nonzero W →
  (tsdb_NewHead w0).2 = None →
  Forall (λ m, len (series_samples m) ≤ int_max) fixtures →
  Forall (λ m, (length (series_samples m) ≤ fuel)%nat) fixtures →
  ∃ w segs err,
    createHead fuel (Some <$> fixtures) w0 [] =
      (w, [EvNewHead None; EvAppender] ++ concat segs ++ [EvCommit err; EvClose],
       match err with None => Done () | Some e => Fatal e end) ∧
    Forall2 series_appended_fast fixtures segs.
Proof.
  intros Hadd Hfast Hrefs Hnew Hlen Hfuel. unfold createHead.
  unfold mbind at 1, M_bind at 1, call at 1.
  destruct (tsdb_NewHead w0) as [w1 err1]. simpl in Hnew. subst err1.
  unfold mbind at 1, M_bind at 1. cbn [Ok mret M_ret].
  unfold defer, mbind, M_bind, call.
  destruct (range_series_fast_run fuel fixtures (head_Appender w1)
              (([] ++ [EvNewHead None]) ++ [EvAppender]) Hadd Hfast Hrefs Hlen Hfuel)
    as (w2 & segs & -> & Hsegs).
  destruct (app_Commit w2) as [w3 err].
  exists (head_Close w3), segs, err. split; [|done].
  destruct err as [e|]; simpl; by rewrite <-!app_assoc.
Qed.

End Fast_path.

Lemma createHead_fast_path_witness :
  ∃ w segs err,
    createHead (H := stub_collaborators true) 5
               (Some <$> [newSeries ∅ five_samples; newSeries ∅ []])
               (mk_stub [] []) [] =
      (w, [EvNewHead None; EvAppender] ++ concat segs ++ [EvCommit err; EvClose],
       match err with None => Done () | Some e => Fatal e end) ∧
    Forall2 series_appended_fast [newSeries ∅ five_samples; newSeries ∅ []] segs.
Proof.
  apply (createHead_fast_path (H := stub_collaborators true) 5
           [newSeries ∅ five_samples; newSeries ∅ []] (mk_stub [] [])).
  - intros l ts x w. reflexivity.
  - intros ref ts x w. reflexivity.
  - intros l ts x w. simpl. lia.
  - reflexivity.
  - repeat constructor; by vm_compute.
  - repeat constructor; simpl; lia.
Defined.

(** ** Ingesting generated fixtures *)






